(** * RAJA: CUDA kernel-launch execution of [forall] loops

    A shallow embedding of [include/RAJA/exec-cuda/forall_cuda.hxx]:
    the four device kernels, the sixteen dispatch templates (index range,
    range segment, indirection array and list segment; plain and
    [forall_Icount]; [cuda_exec] and [cuda_exec_async]) and the two
    index-set walkers, followed by the properties established for them.

    Machine integers are integers of [Z] with their wrap-around written
    out.  Host code runs in a small state-and-error monad whose state is
    the record of what the host has asked of the device; the CUDA runtime
    itself is a parameter ([Device]). *)

From Stdlib Require Import ZArith List Lia Permutation Bool.
Import ListNotations.
Local Open Scope Z_scope.

(** ** Machine integers *)

(** [size_t]: unsigned, 64 bits. *)
Definition to_size_t (z : Z) : Z := z mod 2 ^ 64.
Definition size_t_add (a b : Z) : Z := to_size_t (a + b).
Definition size_t_sub (a b : Z) : Z := to_size_t (a - b).

(** Unsigned division; a division by zero gives no result: the program ends
    at it (see [outcome]). *)
Definition size_t_div (a b : Z) : option Z :=
  if b =? 0 then None else Some (a / b).

(** [unsigned int]: the type of the components of [dim3], hence of
    [blockDim.x], [blockIdx.x], [threadIdx.x] and of the two launch
    parameters once they are converted to [dim3]. *)
Definition to_uint (z : Z) : Z := z mod 2 ^ 32.

(** [Index_type] is declared in another header, [RAJA/int_datatypes.hxx]: a
    signed two's-complement integer type whose width in bits is the
    parameter [index_bits] (RAJA declares it as [int], 32 bits).
    Conversions and signed arithmetic wrap, as the hardware does. *)
Definition to_Index_type (index_bits z : Z) : Z :=
  (z + 2 ^ (index_bits - 1)) mod 2 ^ index_bits - 2 ^ (index_bits - 1).

Definition Index_type (index_bits z : Z) : Prop :=
  - 2 ^ (index_bits - 1) <= z < 2 ^ (index_bits - 1).

(** ** Loop bodies and device threads *)

(** The loop body is an opaque callable; what the model keeps of it is the
    arguments of each invocation: [loop_body(i)] or [loop_body(icount, i)]. *)
Inductive call : Type :=
| Call1 (i : Z)
| Call2 (icount i : Z).

Definition call_eq_dec (x y : call) : {x = y} + {x <> y}.
Proof. decide equality; apply Z.eq_dec. Defined.

Definition global_index (c : call) : option Z :=
  match c with
  | Call1 _ => None
  | Call2 icount _ => Some icount
  end.

(** The hardware identifiers a kernel consults. *)
Record thread : Type := mkThread {
  blockDim_x : Z;
  blockIdx_x : Z;
  threadIdx_x : Z
}.

(** The integers [0, 1, ..., n-1]. *)
Definition zrange (n : Z) : list Z := map Z.of_nat (seq 0 (Z.to_nat n)).

(** The threads of a one-dimensional launch [<<<gridDim, blockDim>>>], block
    by block. *)
Definition grid_threads (gridDim blockDim : Z) : list thread :=
  flat_map (fun b => map (fun t => mkThread blockDim b t) (zrange blockDim))
           (zrange gridDim).

(** ** The CUDA runtime *)

Inductive cudaError_t : Type :=
| cudaSuccess
| cudaErrorInvalidConfiguration
| cudaErrorLaunchOutOfResources
| cudaErrorLaunchFailure.

Definition is_cudaSuccess (e : cudaError_t) : bool :=
  match e with
  | cudaSuccess => true
  | _ => false
  end.

(** What the host asks of the device, in program order.  A launch records
    its configuration (as [dim3] holds it), the status the runtime gave it
    and the loop-body invocations of its threads. *)
Inductive event : Type :=
| FT_BEGIN
| FT_END
| KernelLaunch (gridDim blockDim : Z) (status : cudaError_t) (calls : list call)
| PeekAtLastError (status : cudaError_t)
| DeviceSynchronize (status : cudaError_t).

(** The device is external: the status it gives to the [n]-th launch of a
    given configuration, the status [cudaDeviceSynchronize] returns after
    [n] launches, and the order in which it runs the threads of a grid. *)
Record Device : Type := mkDevice {
  launchStatus : nat -> Z -> Z -> cudaError_t;
  syncStatus : nat -> cudaError_t;
  schedule : list thread -> list thread
}.

(** A device whose scheduler runs every thread of a grid, each once. *)
Definition fair (dev : Device) : Prop :=
  forall l, Permutation (schedule dev l) l.

(** The launch limits of a CUDA device of compute capability 3.0 or later:
    a grid of 1 to 2^31-1 blocks, a block of 1 to 1024 threads; any other
    configuration is refused with [cudaErrorInvalidConfiguration]. *)
Definition cuda_launchStatus (n : nat) (gridDim blockDim : Z) : cudaError_t :=
  if (1 <=? gridDim) && (gridDim <=? 2 ^ 31 - 1)
     && (1 <=? blockDim) && (blockDim <=? 1024)
  then cudaSuccess else cudaErrorInvalidConfiguration.

Definition cuda_device : Device :=
  mkDevice cuda_launchStatus (fun _ => cudaSuccess) (fun l => l).

(** A device that runs out of resources at its [k]-th launch (counted from
    0) and otherwise behaves as [cuda_device]. *)
Definition failing_device (k : nat) : Device :=
  mkDevice (fun n g b => if Nat.eqb n k then cudaErrorLaunchOutOfResources
                         else cuda_launchStatus n g b)
           (fun _ => cudaSuccess) (fun l => l).

(** A device that takes launches as [cuda_device] does and reports a failed
    kernel at every synchronization. *)
Definition faulting_device : Device :=
  mkDevice cuda_launchStatus (fun _ => cudaErrorLaunchFailure) (fun l => l).

(** ** Host state and the host monad *)

Record Host : Type := mkHost {
  lastError : cudaError_t;
  trace : list event
}.

Definition clean_host : Host := mkHost cudaSuccess [].

(** How a call ends: it returns; or [gpuErrchk] ends it on a device error;
    or it divides an integer by zero, which the language leaves without
    defined behaviour and which ends the program at the division, where the
    hardware traps.  Nothing is executed after either failure. *)
Inductive outcome (A : Type) : Type :=
| Returned (a : A)
| Fatal (e : cudaError_t)
| Undefined.
Arguments Returned {A} a.
Arguments Fatal {A} e.
Arguments Undefined {A}.

Definition M (A : Type) : Type := Host -> outcome A * Host.

Definition ret {A} (a : A) : M A := fun h => (Returned a, h).

Definition bind {A B} (c : M A) (k : A -> M B) : M B :=
  fun h =>
    match c h with
    | (Returned a, h') => k a h'
    | (Fatal e, h') => (Fatal e, h')
    | (Undefined, h') => (Undefined, h')
    end.

Notation "x <- c ;; k" := (bind c (fun x => k))
  (at level 61, c at next level, right associativity).
Notation "c ;; k" := (bind c (fun _ => k))
  (at level 61, right associativity).

Definition defined {A} (o : option A) : M A :=
  fun h => match o with
           | Some a => (Returned a, h)
           | None => (Undefined, h)
           end.

Definition emit (ev : event) : M unit :=
  fun h => (Returned tt, mkHost (lastError h) (trace h ++ [ev])).

(** Reading the trace back. *)
Definition is_launch (ev : event) : bool :=
  match ev with
  | KernelLaunch _ _ _ _ => true
  | _ => false
  end.

Definition is_sync (ev : event) : bool :=
  match ev with
  | DeviceSynchronize _ => true
  | _ => false
  end.

Definition launches (tr : list event) : nat := length (filter is_launch tr).

(** The device operations of a trace: its events without the marks of the
    fault-tolerance scope, whose exit action belongs to the external
    macros. *)
Definition is_scope_mark (ev : event) : bool :=
  match ev with
  | FT_BEGIN | FT_END => true
  | _ => false
  end.

Definition device_events (tr : list event) : list event :=
  filter (fun ev => negb (is_scope_mark ev)) tr.

Definition event_calls (ev : event) : list call :=
  match ev with
  | KernelLaunch _ _ _ calls => calls
  | _ => []
  end.

(** Every loop-body invocation of a trace. *)
Definition invocations (tr : list event) : list call :=
  flat_map event_calls tr.

(** A trace without device synchronization, except possibly as its last
    event. *)
Definition synchronizes_only_last (tr : list event) : Prop :=
  exists tr',
    filter is_sync tr' = []
    /\ (tr = tr' \/ exists s, tr = tr' ++ [DeviceSynchronize s]).

(** The launch configurations of a trace, as (grid, block) pairs. *)
Definition geometry (tr : list event) : list (Z * Z) :=
  flat_map (fun ev => match ev with
                      | KernelLaunch g b _ _ => [(g, b)]
                      | _ => []
                      end) tr.

(** [for (i in l) body(i)], in list order. *)
Fixpoint for_each (l : list Z) (body : Z -> M unit) : M unit :=
  match l with
  | [] => ret tt
  | i :: l' => body i ;; for_each l' body
  end.

(** The invocations of a trace, launch by launch. *)
Definition launch_records (tr : list event) : list (list call) :=
  flat_map (fun ev => match ev with
                      | KernelLaunch _ _ _ calls => [calls]
                      | _ => []
                      end) tr.

(** [prefix_sums acc [L0; L1; ...] = [acc; acc + L0; acc + L0 + L1; ...]],
    one sum per length, and the sum of all the lengths. *)
Fixpoint prefix_sums (acc : Z) (ls : list Z) : list Z :=
  match ls with
  | [] => []
  | l :: rest => acc :: prefix_sums (acc + l) rest
  end.

Definition sum_lengths (ls : list Z) : Z := fold_right Z.add 0 ls.

(** An invocation, an event and a host state with the index counts
    forgotten: [loop_body(icount, i)] seen as [loop_body(i)]. *)
Definition forget_count (c : call) : call :=
  match c with
  | Call1 i => Call1 i
  | Call2 _ i => Call1 i
  end.

Definition forget_count_event (ev : event) : event :=
  match ev with
  | KernelLaunch g b s calls => KernelLaunch g b s (map forget_count calls)
  | _ => ev
  end.

Definition uncounted_view (h : Host) : Host :=
  mkHost (lastError h) (map forget_count_event (trace h)).

Definition uncounted_result (r : outcome unit * Host) : outcome unit * Host :=
  (fst r, uncounted_view (snd r)).

(** Two results from the same host state [h], the second of which differs
    from the first by one checked device synchronization. *)
Definition differ_by_synchronization (h : Host)
  (ra rs : outcome unit * Host) : Prop :=
  geometry (trace (snd rs)) = geometry (trace (snd ra))
  /\ invocations (trace (snd rs)) = invocations (trace (snd ra))
  /\ (fst ra <> Returned tt -> rs = ra)
  /\ (fst ra = Returned tt ->
      exists issued s,
        trace (snd ra) = trace h ++ issued ++ [FT_END]
        /\ ((s = cudaSuccess /\ fst rs = Returned tt
             /\ trace (snd rs)
                = trace h ++ issued ++ [DeviceSynchronize s; FT_END])
            \/ (s <> cudaSuccess /\ fst rs = Fatal s
                /\ trace (snd rs)
                   = trace h ++ issued ++ [DeviceSynchronize s]))).

(** The work items of the launches of a trace. *)
Definition work_items (tr : list event) : Z :=
  sum_lengths (map (fun gb => fst gb * snd gb) (geometry tr)).

(** Ceiling of a quotient, independently of how the code computes it. *)
Definition ceil_div (a b : Z) : Z := - (- a / b).

Section ForallCuda.

Variable index_bits : Z.
Variable dev : Device.

Definition Index_add (a b : Z) : Z := to_Index_type index_bits (a + b).
Definition Index_sub (a b : Z) : Z := to_Index_type index_bits (a - b).

(** ** CUDA kernel templates *)

(** [Index_type ii = blockDim.x * blockIdx.x + threadIdx.x;]: the right-hand
    side is [unsigned int] arithmetic, converted to [Index_type]. *)
Definition thread_ii (t : thread) : Z :=
  to_Index_type index_bits
    (to_uint (blockDim_x t * blockIdx_x t + threadIdx_x t)).

(** Kernel for an index range. *)
Definition forall_cuda_kernel (begin len : Z) (t : thread) : list call :=
  let ii := thread_ii t in
  if ii <? len then [Call1 (Index_add begin ii)] else [].

(** Kernel for an index range, with index count. *)
Definition forall_Icount_cuda_kernel (begin len icount : Z) (t : thread)
  : list call :=
  let ii := thread_ii t in
  if ii <? len then [Call2 (Index_add ii icount) (Index_add ii begin)] else [].

(** Kernel for an indirection array; [idx] is the memory the pointer gives
    access to, [idx i] standing for [idx[i]]. *)
Definition forall_cuda_kernel_idx (idx : Z -> Z) (length : Z) (t : thread)
  : list call :=
  let ii := thread_ii t in
  if ii <? length then [Call1 (idx ii)] else [].

(** Kernel for an indirection array, with index count. *)
Definition forall_Icount_cuda_kernel_idx (idx : Z -> Z) (length icount : Z)
  (t : thread) : list call :=
  let ii := thread_ii t in
  if ii <? length then [Call2 (Index_add ii icount) (idx ii)] else [].

(** ** Runtime calls made by the host *)

(** [kernel<<<gridSize, BLOCK_SIZE>>>(...)]: both parameters are converted
    to [dim3].  A launch the device refuses runs no thread and sets the last
    error; a launch it takes leaves the last error as it was. *)
Definition cuda_launch (kernel : thread -> list call) (gridSize BLOCK_SIZE : Z)
  : M unit :=
  fun h =>
    let g := to_uint gridSize in
    let b := to_uint BLOCK_SIZE in
    let s := launchStatus dev (launches (trace h)) g b in
    if is_cudaSuccess s
    then (Returned tt,
          mkHost (lastError h)
            (trace h ++
             [KernelLaunch g b s
                (flat_map kernel (schedule dev (grid_threads g b)))]))
    else (Returned tt, mkHost s (trace h ++ [KernelLaunch g b s []])).

Definition cudaPeekAtLastError : M cudaError_t :=
  fun h =>
    (Returned (lastError h),
     mkHost (lastError h) (trace h ++ [PeekAtLastError (lastError h)])).

Definition cudaDeviceSynchronize : M cudaError_t :=
  fun h =>
    let s := syncStatus dev (launches (trace h)) in
    (Returned s,
     mkHost (if is_cudaSuccess s then lastError h else s)
            (trace h ++ [DeviceSynchronize s])).

(** Modelled from the spec: [gpuErrchk], the device error-reporting utility
    invoked after each launch, is a macro of another header.  A device
    failure "is surfaced as a fatal device error; it is not retried". *)
Definition gpuErrchk (e : cudaError_t) : M unit :=
  fun h => if is_cudaSuccess e then (Returned tt, h) else (Fatal e, h).

(** Modelled from the spec: [RAJA_FT_BEGIN] and [RAJA_FT_END] are macros of
    another header, [RAJA/fault_tolerance.hxx]; they bound "a no-op scoped
    region unless externally configured". *)
Definition RAJA_FT_BEGIN : M unit := emit FT_BEGIN.
Definition RAJA_FT_END : M unit := emit FT_END.

(** [(len + BLOCK_SIZE - 1) / BLOCK_SIZE], computed in [size_t]. *)
Definition gridSize_of (len BLOCK_SIZE : Z) : option Z :=
  size_t_div (size_t_sub (size_t_add (to_size_t len) BLOCK_SIZE) 1) BLOCK_SIZE.

(** ** Execution over index ranges *)

Definition forall_cuda_exec (BLOCK_SIZE begin end_ : Z) : M unit :=
  let len := Index_sub end_ begin in
  gridSize <- defined (gridSize_of len BLOCK_SIZE) ;;
  RAJA_FT_BEGIN ;;
  cuda_launch (forall_cuda_kernel begin len) gridSize BLOCK_SIZE ;;
  e <- cudaPeekAtLastError ;; gpuErrchk e ;;
  e <- cudaDeviceSynchronize ;; gpuErrchk e ;;
  RAJA_FT_END.

Definition forall_cuda_exec_async (BLOCK_SIZE begin end_ : Z) : M unit :=
  let len := Index_sub end_ begin in
  gridSize <- defined (gridSize_of len BLOCK_SIZE) ;;
  RAJA_FT_BEGIN ;;
  cuda_launch (forall_cuda_kernel begin len) gridSize BLOCK_SIZE ;;
  e <- cudaPeekAtLastError ;; gpuErrchk e ;;
  RAJA_FT_END.

Definition forall_Icount_cuda_exec (BLOCK_SIZE begin end_ icount : Z)
  : M unit :=
  let len := Index_sub end_ begin in
  gridSize <- defined (gridSize_of len BLOCK_SIZE) ;;
  RAJA_FT_BEGIN ;;
  cuda_launch (forall_Icount_cuda_kernel begin len icount)
    gridSize BLOCK_SIZE ;;
  e <- cudaPeekAtLastError ;; gpuErrchk e ;;
  e <- cudaDeviceSynchronize ;; gpuErrchk e ;;
  RAJA_FT_END.

Definition forall_Icount_cuda_exec_async (BLOCK_SIZE begin end_ icount : Z)
  : M unit :=
  let len := Index_sub end_ begin in
  gridSize <- defined (gridSize_of len BLOCK_SIZE) ;;
  RAJA_FT_BEGIN ;;
  cuda_launch (forall_Icount_cuda_kernel begin len icount)
    gridSize BLOCK_SIZE ;;
  e <- cudaPeekAtLastError ;; gpuErrchk e ;;
  RAJA_FT_END.

(** ** Execution over range segments *)

Record RangeSegment : Type := mkRangeSegment {
  getBegin : Z;
  getEnd : Z
}.

Definition forall_cuda_exec_RangeSegment (BLOCK_SIZE : Z) (iseg : RangeSegment)
  : M unit :=
  let begin := getBegin iseg in
  let end_ := getEnd iseg in
  let len := Index_sub end_ begin in
  gridSize <- defined (gridSize_of len BLOCK_SIZE) ;;
  RAJA_FT_BEGIN ;;
  cuda_launch (forall_cuda_kernel begin len) gridSize BLOCK_SIZE ;;
  e <- cudaPeekAtLastError ;; gpuErrchk e ;;
  e <- cudaDeviceSynchronize ;; gpuErrchk e ;;
  RAJA_FT_END.

Definition forall_cuda_exec_async_RangeSegment (BLOCK_SIZE : Z)
  (iseg : RangeSegment) : M unit :=
  let begin := getBegin iseg in
  let end_ := getEnd iseg in
  let len := Index_sub end_ begin in
  gridSize <- defined (gridSize_of len BLOCK_SIZE) ;;
  RAJA_FT_BEGIN ;;
  cuda_launch (forall_cuda_kernel begin len) gridSize BLOCK_SIZE ;;
  e <- cudaPeekAtLastError ;; gpuErrchk e ;;
  RAJA_FT_END.

Definition forall_Icount_cuda_exec_RangeSegment (BLOCK_SIZE : Z)
  (iseg : RangeSegment) (icount : Z) : M unit :=
  let begin := getBegin iseg in
  let len := Index_sub (getEnd iseg) begin in
  gridSize <- defined (gridSize_of len BLOCK_SIZE) ;;
  RAJA_FT_BEGIN ;;
  cuda_launch (forall_Icount_cuda_kernel begin len icount)
    gridSize BLOCK_SIZE ;;
  e <- cudaPeekAtLastError ;; gpuErrchk e ;;
  e <- cudaDeviceSynchronize ;; gpuErrchk e ;;
  RAJA_FT_END.

Definition forall_Icount_cuda_exec_async_RangeSegment (BLOCK_SIZE : Z)
  (iseg : RangeSegment) (icount : Z) : M unit :=
  let begin := getBegin iseg in
  let len := Index_sub (getEnd iseg) begin in
  gridSize <- defined (gridSize_of len BLOCK_SIZE) ;;
  RAJA_FT_BEGIN ;;
  cuda_launch (forall_Icount_cuda_kernel begin len icount)
    gridSize BLOCK_SIZE ;;
  e <- cudaPeekAtLastError ;; gpuErrchk e ;;
  RAJA_FT_END.

(** ** Execution over indirection arrays *)

Definition forall_cuda_exec_idx (BLOCK_SIZE : Z) (idx : Z -> Z) (len : Z)
  : M unit :=
  gridSize <- defined (gridSize_of len BLOCK_SIZE) ;;
  RAJA_FT_BEGIN ;;
  cuda_launch (forall_cuda_kernel_idx idx len) gridSize BLOCK_SIZE ;;
  e <- cudaPeekAtLastError ;; gpuErrchk e ;;
  e <- cudaDeviceSynchronize ;; gpuErrchk e ;;
  RAJA_FT_END.

Definition forall_cuda_exec_async_idx (BLOCK_SIZE : Z) (idx : Z -> Z) (len : Z)
  : M unit :=
  gridSize <- defined (gridSize_of len BLOCK_SIZE) ;;
  RAJA_FT_BEGIN ;;
  cuda_launch (forall_cuda_kernel_idx idx len) gridSize BLOCK_SIZE ;;
  e <- cudaPeekAtLastError ;; gpuErrchk e ;;
  RAJA_FT_END.

Definition forall_Icount_cuda_exec_idx (BLOCK_SIZE : Z) (idx : Z -> Z)
  (len icount : Z) : M unit :=
  gridSize <- defined (gridSize_of len BLOCK_SIZE) ;;
  RAJA_FT_BEGIN ;;
  cuda_launch (forall_Icount_cuda_kernel_idx idx len icount)
    gridSize BLOCK_SIZE ;;
  e <- cudaPeekAtLastError ;; gpuErrchk e ;;
  e <- cudaDeviceSynchronize ;; gpuErrchk e ;;
  RAJA_FT_END.

Definition forall_Icount_cuda_exec_async_idx (BLOCK_SIZE : Z) (idx : Z -> Z)
  (len icount : Z) : M unit :=
  gridSize <- defined (gridSize_of len BLOCK_SIZE) ;;
  RAJA_FT_BEGIN ;;
  cuda_launch (forall_Icount_cuda_kernel_idx idx len icount)
    gridSize BLOCK_SIZE ;;
  e <- cudaPeekAtLastError ;; gpuErrchk e ;;
  RAJA_FT_END.

(** ** Execution over list segments *)

Record ListSegment : Type := mkListSegment {
  getIndex : Z -> Z;
  getLength : Z
}.

Definition forall_cuda_exec_ListSegment (BLOCK_SIZE : Z) (iseg : ListSegment)
  : M unit :=
  let idx := getIndex iseg in
  let len := getLength iseg in
  gridSize <- defined (gridSize_of len BLOCK_SIZE) ;;
  RAJA_FT_BEGIN ;;
  cuda_launch (forall_cuda_kernel_idx idx len) gridSize BLOCK_SIZE ;;
  e <- cudaPeekAtLastError ;; gpuErrchk e ;;
  e <- cudaDeviceSynchronize ;; gpuErrchk e ;;
  RAJA_FT_END.

Definition forall_cuda_exec_async_ListSegment (BLOCK_SIZE : Z)
  (iseg : ListSegment) : M unit :=
  let idx := getIndex iseg in
  let len := getLength iseg in
  gridSize <- defined (gridSize_of len BLOCK_SIZE) ;;
  RAJA_FT_BEGIN ;;
  cuda_launch (forall_cuda_kernel_idx idx len) gridSize BLOCK_SIZE ;;
  e <- cudaPeekAtLastError ;; gpuErrchk e ;;
  RAJA_FT_END.

Definition forall_Icount_cuda_exec_ListSegment (BLOCK_SIZE : Z)
  (iseg : ListSegment) (icount : Z) : M unit :=
  let idx := getIndex iseg in
  let len := getLength iseg in
  gridSize <- defined (gridSize_of len BLOCK_SIZE) ;;
  RAJA_FT_BEGIN ;;
  cuda_launch (forall_Icount_cuda_kernel_idx idx len icount)
    gridSize BLOCK_SIZE ;;
  e <- cudaPeekAtLastError ;; gpuErrchk e ;;
  e <- cudaDeviceSynchronize ;; gpuErrchk e ;;
  RAJA_FT_END.

Definition forall_Icount_cuda_exec_async_ListSegment (BLOCK_SIZE : Z)
  (iseg : ListSegment) (icount : Z) : M unit :=
  let idx := getIndex iseg in
  let len := getLength iseg in
  gridSize <- defined (gridSize_of len BLOCK_SIZE) ;;
  RAJA_FT_BEGIN ;;
  cuda_launch (forall_Icount_cuda_kernel_idx idx len icount)
    gridSize BLOCK_SIZE ;;
  e <- cudaPeekAtLastError ;; gpuErrchk e ;;
  RAJA_FT_END.


(** ** Iteration over index set segments *)

(** A segment of an index set, tagged with its shape. *)
Inductive BaseSegment : Type :=
| RangeSeg (iseg : RangeSegment)
| ListSeg (iseg : ListSegment).

(** Modelled from the spec: [IndexSetSegInfo] and [IndexSet] are classes
    declared in another header.  A segmented set gives its "segment count"
    and "segment-at(i)"; each segment comes with its counter, the "running
    global index", which "equals the sum of lengths of segments 0..k-1". *)
Record IndexSetSegInfo : Type := mkSegInfo {
  getSegment : BaseSegment;
  getIcount : Z
}.

Definition IndexSet : Type := list IndexSetSegInfo.

Definition getNumSegments (iset : IndexSet) : Z := Z.of_nat (length iset).

Definition getSegmentInfo (iset : IndexSet) (isi : Z)
  : option IndexSetSegInfo :=
  nth_error iset (Z.to_nat isi).

Definition segment_length (s : BaseSegment) : Z :=
  match s with
  | RangeSeg iseg => Index_sub (getEnd iseg) (getBegin iseg)
  | ListSeg iseg => getLength iseg
  end.

(** Modelled from the spec: the construction of an index set from a
    sequence of segments is code of another file; the running index starts
    at 0 and is advanced "by that segment's length" after each segment. *)
Fixpoint segments_from (icount : Z) (segs : list BaseSegment) : IndexSet :=
  match segs with
  | [] => []
  | s :: rest =>
      mkSegInfo s icount
        :: segments_from (Index_add icount (segment_length s)) rest
  end.

Definition mkIndexSet (segs : list BaseSegment) : IndexSet :=
  segments_from 0 segs.

(** The segment execution policies. *)
Inductive exec_policy : Type :=
| cuda_exec (BLOCK_SIZE : Z)
| cuda_exec_async (BLOCK_SIZE : Z).

Definition block_size (p : exec_policy) : Z :=
  match p with
  | cuda_exec B => B
  | cuda_exec_async B => B
  end.

Definition synchronous (p : exec_policy) : bool :=
  match p with
  | cuda_exec _ => true
  | cuda_exec_async _ => false
  end.

(** The iteration domains the templates are overloaded on. *)
Inductive domain : Type :=
| IndexRange (begin end_ : Z)
| RangeSegmentObject (iseg : RangeSegment)
| IndirectionArray (idx : Z -> Z) (len : Z)
| ListSegmentObject (iseg : ListSegment).

(** Overload resolution of [forall(policy, domain..., loop_body)]. *)
Definition forall_cuda (p : exec_policy) (d : domain) : M unit :=
  match p, d with
  | cuda_exec B, IndexRange begin end_ => forall_cuda_exec B begin end_
  | cuda_exec_async B, IndexRange begin end_ =>
      forall_cuda_exec_async B begin end_
  | cuda_exec B, RangeSegmentObject iseg =>
      forall_cuda_exec_RangeSegment B iseg
  | cuda_exec_async B, RangeSegmentObject iseg =>
      forall_cuda_exec_async_RangeSegment B iseg
  | cuda_exec B, IndirectionArray idx len => forall_cuda_exec_idx B idx len
  | cuda_exec_async B, IndirectionArray idx len =>
      forall_cuda_exec_async_idx B idx len
  | cuda_exec B, ListSegmentObject iseg => forall_cuda_exec_ListSegment B iseg
  | cuda_exec_async B, ListSegmentObject iseg =>
      forall_cuda_exec_async_ListSegment B iseg
  end.

(** Overload resolution of
    [forall_Icount(policy, domain..., icount, loop_body)]. *)
Definition forall_Icount_cuda (p : exec_policy) (d : domain) (icount : Z)
  : M unit :=
  match p, d with
  | cuda_exec B, IndexRange begin end_ =>
      forall_Icount_cuda_exec B begin end_ icount
  | cuda_exec_async B, IndexRange begin end_ =>
      forall_Icount_cuda_exec_async B begin end_ icount
  | cuda_exec B, RangeSegmentObject iseg =>
      forall_Icount_cuda_exec_RangeSegment B iseg icount
  | cuda_exec_async B, RangeSegmentObject iseg =>
      forall_Icount_cuda_exec_async_RangeSegment B iseg icount
  | cuda_exec B, IndirectionArray idx len =>
      forall_Icount_cuda_exec_idx B idx len icount
  | cuda_exec_async B, IndirectionArray idx len =>
      forall_Icount_cuda_exec_async_idx B idx len icount
  | cuda_exec B, ListSegmentObject iseg =>
      forall_Icount_cuda_exec_ListSegment B iseg icount
  | cuda_exec_async B, ListSegmentObject iseg =>
      forall_Icount_cuda_exec_async_ListSegment B iseg icount
  end.

Definition segment_domain (s : BaseSegment) : domain :=
  match s with
  | RangeSeg iseg => RangeSegmentObject iseg
  | ListSeg iseg => ListSegmentObject iseg
  end.

(** Modelled from the spec: [executeRangeList_forall] is a function template
    of another header.  It must "look up segment isi's domain-shape view"
    and "dispatch that segment" under the policy it is instantiated with. *)
Definition executeRangeList_forall (p : exec_policy)
  (seg_info : IndexSetSegInfo) : M unit :=
  match getSegment seg_info with
  | RangeSeg iseg => forall_cuda p (RangeSegmentObject iseg)
  | ListSeg iseg => forall_cuda p (ListSegmentObject iseg)
  end.

(** Modelled from the spec: [executeRangeList_forall_Icount] is a function
    template of another header.  It dispatches the segment as above,
    "passing the running global index". *)
Definition executeRangeList_forall_Icount (p : exec_policy)
  (seg_info : IndexSetSegInfo) : M unit :=
  let icount := getIcount seg_info in
  match getSegment seg_info with
  | RangeSeg iseg => forall_Icount_cuda p (RangeSegmentObject iseg) icount
  | ListSeg iseg => forall_Icount_cuda p (ListSegmentObject iseg) icount
  end.

(** [forall(IndexSet::ExecPolicy<seq_segit, cuda_exec<BLOCK_SIZE> >, ...)]:
    sequential iteration over the segments, CUDA execution of each. *)
Definition forall_IndexSet (BLOCK_SIZE : Z) (iset : IndexSet) : M unit :=
  let num_seg := getNumSegments iset in
  for_each (zrange num_seg) (fun isi =>
    seg_info <- defined (getSegmentInfo iset isi) ;;
    executeRangeList_forall (cuda_exec_async BLOCK_SIZE) seg_info) ;;
  e <- cudaPeekAtLastError ;; gpuErrchk e ;;
  e <- cudaDeviceSynchronize ;; gpuErrchk e.

(** [forall_Icount(IndexSet::ExecPolicy<seq_segit, cuda_exec<BLOCK_SIZE> >,
    ...)]: the same, passing the index count to the segments. *)
Definition forall_Icount_IndexSet (BLOCK_SIZE : Z) (iset : IndexSet)
  : M unit :=
  let num_seg := getNumSegments iset in
  for_each (zrange num_seg) (fun isi =>
    seg_info <- defined (getSegmentInfo iset isi) ;;
    executeRangeList_forall_Icount (cuda_exec_async BLOCK_SIZE) seg_info) ;;
  e <- cudaPeekAtLastError ;; gpuErrchk e ;;
  e <- cudaDeviceSynchronize ;; gpuErrchk e.

(** The number of work items below which
    [blockDim.x * blockIdx.x + threadIdx.x] neither wraps in [unsigned int]
    nor changes when converted to [Index_type]. *)
Definition index_limit : Z := Z.min (2 ^ 32) (2 ^ (index_bits - 1)).

(** The invocations of a launch of [g] blocks of [b] threads that the device
    takes. *)
Definition launch_calls (k : thread -> list call) (g b : Z) : list call :=
  flat_map k (schedule dev (grid_threads g b)).

(** The shape shared by the eight asynchronous and by the eight synchronous
    dispatch templates, for a kernel [k] over [len] items. *)
Definition dispatch_async (k : thread -> list call) (len BLOCK_SIZE : Z)
  : M unit :=
  gridSize <- defined (gridSize_of len BLOCK_SIZE) ;;
  RAJA_FT_BEGIN ;;
  cuda_launch k gridSize BLOCK_SIZE ;;
  e <- cudaPeekAtLastError ;; gpuErrchk e ;;
  RAJA_FT_END.

Definition dispatch_sync (k : thread -> list call) (len BLOCK_SIZE : Z)
  : M unit :=
  gridSize <- defined (gridSize_of len BLOCK_SIZE) ;;
  RAJA_FT_BEGIN ;;
  cuda_launch k gridSize BLOCK_SIZE ;;
  e <- cudaPeekAtLastError ;; gpuErrchk e ;;
  e <- cudaDeviceSynchronize ;; gpuErrchk e ;;
  RAJA_FT_END.

(** The shape shared by the four kernels: the guard [ii < len] around one
    invocation that depends on [ii]. *)
Definition guarded (len : Z) (f : Z -> call) (t : thread) : list call :=
  let ii := thread_ii t in
  if ii <? len then [f ii] else [].

(** The length of a domain as its template computes it, the domain index of
    its item [ii], and the kernels launched over it. *)
Definition domain_length (d : domain) : Z :=
  match d with
  | IndexRange begin end_ => Index_sub end_ begin
  | RangeSegmentObject iseg => Index_sub (getEnd iseg) (getBegin iseg)
  | IndirectionArray _ len => len
  | ListSegmentObject iseg => getLength iseg
  end.

Definition domain_kernel (d : domain) : thread -> list call :=
  match d with
  | IndexRange begin end_ => forall_cuda_kernel begin (Index_sub end_ begin)
  | RangeSegmentObject iseg =>
      forall_cuda_kernel (getBegin iseg)
        (Index_sub (getEnd iseg) (getBegin iseg))
  | IndirectionArray idx len => forall_cuda_kernel_idx idx len
  | ListSegmentObject iseg =>
      forall_cuda_kernel_idx (getIndex iseg) (getLength iseg)
  end.

Definition domain_kernel_Icount (d : domain) (icount : Z)
  : thread -> list call :=
  match d with
  | IndexRange begin end_ =>
      forall_Icount_cuda_kernel begin (Index_sub end_ begin) icount
  | RangeSegmentObject iseg =>
      forall_Icount_cuda_kernel (getBegin iseg)
        (Index_sub (getEnd iseg) (getBegin iseg)) icount
  | IndirectionArray idx len => forall_Icount_cuda_kernel_idx idx len icount
  | ListSegmentObject iseg =>
      forall_Icount_cuda_kernel_idx (getIndex iseg) (getLength iseg) icount
  end.

Definition dispatch (p : exec_policy) (k : thread -> list call) (len : Z)
  : M unit :=
  match p with
  | cuda_exec B => dispatch_sync k len B
  | cuda_exec_async B => dispatch_async k len B
  end.

(** A launch of [len] items in groups of [B] that stays within the machine
    integers: the group size and the number of groups fit the 32-bit launch
    dimensions, and the [ceil (len / B) * B] work items launched number at
    most [index_limit]. *)
Definition fits_launch (len B : Z) : Prop :=
  0 < B < 2 ^ 32
  /\ ceil_div len B < 2 ^ 32
  /\ ceil_div len B * B <= index_limit.

(** What a dispatch over an empty domain leaves behind, from host state [h]:
    one launch of zero groups, no invocation, and success exactly when the
    device reports no error for that launch, none is pending, and (for a
    synchronous policy) the synchronization reports none. *)
Definition empty_dispatch (p : exec_policy) (h : Host)
  (r : outcome unit * Host) : Prop :=
  exists tr,
    trace (snd r) = trace h ++ tr
    /\ geometry tr = [(0, to_uint (block_size p))]
    /\ invocations tr = []
    /\ fst r <> Undefined
    /\ (fst r = Returned tt <->
        launchStatus dev (launches (trace h)) 0 (to_uint (block_size p))
        = cudaSuccess
        /\ lastError h = cudaSuccess
        /\ (synchronous p = true ->
            syncStatus dev (S (launches (trace h))) = cudaSuccess)).

(** The two index-set walkers, and what each runs on a segment. *)
Definition walk (counted : bool) (BLOCK_SIZE : Z) (iset : IndexSet)
  : M unit :=
  if counted then forall_Icount_IndexSet BLOCK_SIZE iset
  else forall_IndexSet BLOCK_SIZE iset.

Definition segment_dispatch (counted : bool) (p : exec_policy)
  (seg_info : IndexSetSegInfo) : M unit :=
  if counted then executeRangeList_forall_Icount p seg_info
  else executeRangeList_forall p seg_info.

Definition segment_kernel (counted : bool) (seg_info : IndexSetSegInfo)
  : thread -> list call :=
  let d := segment_domain (getSegment seg_info) in
  if counted then domain_kernel_Icount d (getIcount seg_info)
  else domain_kernel d.

(** A body run on the segments of a list, first to last. *)
Fixpoint for_segments (body : IndexSetSegInfo -> M unit)
  (l : list IndexSetSegInfo) : M unit :=
  match l with
  | [] => ret tt
  | seg_info :: l' => body seg_info ;; for_segments body l'
  end.

(** What both walkers do after their loop. *)
Definition trailing_check : M unit :=
  e <- cudaPeekAtLastError ;; gpuErrchk e ;;
  e <- cudaDeviceSynchronize ;; gpuErrchk e.

(** The events of an asynchronous dispatch that returns: no
    synchronization. *)
Definition async_events (k : thread -> list call) (len BLOCK_SIZE : Z)
  : list event :=
  match gridSize_of len BLOCK_SIZE with
  | Some gridSize =>
      [FT_BEGIN;
       KernelLaunch (to_uint gridSize) (to_uint BLOCK_SIZE) cudaSuccess
         (launch_calls k (to_uint gridSize) (to_uint BLOCK_SIZE));
       PeekAtLastError cudaSuccess;
       FT_END]
  | None => []
  end.

Definition segment_events (counted : bool) (BLOCK_SIZE : Z)
  (seg_info : IndexSetSegInfo) : list event :=
  async_events (segment_kernel counted seg_info)
    (segment_length (getSegment seg_info)) BLOCK_SIZE.

(** The domain index of item [ii] of a segment, and the invocations the
    counted walk owes a segment: item [ii] with global index
    [icount + ii]. *)
Definition segment_index (s : BaseSegment) (ii : Z) : Z :=
  match s with
  | RangeSeg iseg => getBegin iseg + ii
  | ListSeg iseg => getIndex iseg ii
  end.

Definition counted_calls (seg_info : IndexSetSegInfo) : list call :=
  map (fun ii => Call2 (getIcount seg_info + ii)
                   (segment_index (getSegment seg_info) ii))
      (zrange (segment_length (getSegment seg_info))).

(** A segment whose bounds and length are [Index_type] values, the length
    not negative. *)
Definition segment_ok (s : BaseSegment) : Prop :=
  match s with
  | RangeSeg iseg =>
      Index_type index_bits (getBegin iseg)
      /\ Index_type index_bits (getEnd iseg)
      /\ 0 <= getEnd iseg - getBegin iseg < 2 ^ (index_bits - 1)
  | ListSeg iseg => 0 <= getLength iseg < 2 ^ (index_bits - 1)
  end.

(** An index set of two segments, of lengths 3 and 5, and a third segment
    to follow them. *)
Definition scenario_segments : list BaseSegment :=
  [RangeSeg (mkRangeSegment 10 13);
   ListSeg (mkListSegment (fun i => 100 - i) 5)].

Definition scenario_third_segment : BaseSegment :=
  RangeSeg (mkRangeSegment 0 2).

(** The domain index of item [ii] of a domain, and a domain whose bounds
    and length are [Index_type] values, the length not negative. *)
Definition domain_item (d : domain) (ii : Z) : Z :=
  match d with
  | IndexRange begin _ => begin + ii
  | RangeSegmentObject iseg => getBegin iseg + ii
  | IndirectionArray idx _ => idx ii
  | ListSegmentObject iseg => getIndex iseg ii
  end.

Definition domain_ok (d : domain) : Prop :=
  match d with
  | IndexRange begin end_ =>
      Index_type index_bits begin
      /\ Index_type index_bits end_
      /\ 0 <= end_ - begin < 2 ^ (index_bits - 1)
  | RangeSegmentObject iseg =>
      Index_type index_bits (getBegin iseg)
      /\ Index_type index_bits (getEnd iseg)
      /\ 0 <= getEnd iseg - getBegin iseg < 2 ^ (index_bits - 1)
  | IndirectionArray _ len => 0 <= len < 2 ^ (index_bits - 1)
  | ListSegmentObject iseg => 0 <= getLength iseg < 2 ^ (index_bits - 1)
  end.

(** The linear index of a thread, without wrap-around. *)
Definition linear_id (t : thread) : Z :=
  blockDim_x t * blockIdx_x t + threadIdx_x t.

(** ** Arithmetic of the machine integers *)

Lemma to_size_t_small z : 0 <= z < 2 ^ 64 -> to_size_t z = z.
Proof. intros Hz. unfold to_size_t. now apply Z.mod_small. Qed.

Lemma to_uint_small z : 0 <= z < 2 ^ 32 -> to_uint z = z.
Proof. intros Hz. unfold to_uint. now apply Z.mod_small. Qed.

Lemma to_Index_type_small w z : Index_type w z -> to_Index_type w z = z.
Proof.
  unfold Index_type, to_Index_type. intros Hz.
  assert (Hpos : 0 < 2 ^ (w - 1)) by lia.
  assert (Hw : 0 <= w - 1).
  { destruct (Z.neg_nonneg_cases (w - 1)) as [Hneg | Hnn]; [| exact Hnn].
    rewrite (Z.pow_neg_r 2 (w - 1) Hneg) in Hpos. lia. }
  replace w with (Z.succ (w - 1)) at 2 by lia.
  rewrite Z.pow_succ_r by exact Hw.
  rewrite Z.mod_small; lia.
Qed.

Lemma ceil_div_bounds a b :
  0 < b -> (ceil_div a b - 1) * b < a <= ceil_div a b * b.
Proof.
  intros Hb. unfold ceil_div.
  pose proof (Z.div_mod (- a) b ltac:(lia)) as Hdm.
  pose proof (Z.mod_pos_bound (- a) b Hb) as Hr.
  nia.
Qed.

Lemma ceil_div_unique a b q :
  0 < b -> (q - 1) * b < a <= q * b -> ceil_div a b = q.
Proof.
  intros Hb Hq. pose proof (ceil_div_bounds a b Hb) as Hc. nia.
Qed.

Lemma ceil_div_round_up a b : 0 < b -> (a + b - 1) / b = ceil_div a b.
Proof.
  intros Hb. symmetry. apply ceil_div_unique; [exact Hb |].
  pose proof (Z.div_mod (a + b - 1) b ltac:(lia)) as Hdm.
  pose proof (Z.mod_pos_bound (a + b - 1) b Hb) as Hr.
  nia.
Qed.

Lemma ceil_div_nonneg a b : 0 < b -> 0 <= a -> 0 <= ceil_div a b.
Proof.
  intros Hb Ha. pose proof (ceil_div_bounds a b Hb). nia.
Qed.

Lemma gridSize_of_zero len : gridSize_of len 0 = None.
Proof. reflexivity. Qed.

Lemma gridSize_of_ceil len B :
  0 <= len -> 1 <= B -> len + B - 1 < 2 ^ 64 ->
  gridSize_of len B = Some (ceil_div len B).
Proof.
  intros Hlen HB Hfit. unfold gridSize_of, size_t_div, size_t_sub, size_t_add.
  destruct (Z.eqb_spec B 0) as [-> | _]; [lia |].
  rewrite (to_size_t_small len) by lia.
  unfold to_size_t. rewrite Zminus_mod_idemp_l.
  rewrite Z.mod_small by lia.
  now rewrite ceil_div_round_up by lia.
Qed.

(** ** Ranges and grids *)

Lemma in_zrange n x : In x (zrange n) <-> 0 <= x < n.
Proof.
  unfold zrange. rewrite in_map_iff. split.
  - intros [k [<- Hk]]. apply in_seq in Hk. lia.
  - intros Hx. exists (Z.to_nat x). split; [lia |]. apply in_seq. lia.
Qed.

Lemma zrange_nonpos n : n <= 0 -> zrange n = [].
Proof.
  intros Hn. unfold zrange. now replace (Z.to_nat n) with 0%nat by lia.
Qed.

Lemma map_of_nat_seq s m :
  map Z.of_nat (seq s m)
  = map (Z.add (Z.of_nat s)) (map Z.of_nat (seq 0 m)).
Proof.
  induction m as [| m IH]; [reflexivity |].
  rewrite !seq_S, !map_app, IH. cbn [map]. do 2 f_equal. lia.
Qed.

Lemma zrange_app a b :
  0 <= a -> 0 <= b -> zrange (a + b) = zrange a ++ map (Z.add a) (zrange b).
Proof.
  intros Ha Hb. unfold zrange.
  rewrite Z2Nat.inj_add by assumption.
  rewrite seq_app, map_app. cbn [Nat.add].
  rewrite (map_of_nat_seq (Z.to_nat a)).
  now rewrite Z2Nat.id by assumption.
Qed.

Lemma zrange_succ n : 0 <= n -> zrange (n + 1) = zrange n ++ [n].
Proof.
  intros Hn. rewrite zrange_app by lia.
  change (zrange 1) with [0]. cbn [map]. now rewrite Z.add_0_r.
Qed.

Lemma NoDup_zrange n : NoDup (zrange n).
Proof.
  unfold zrange. apply Finite.Injective_map_NoDup.
  - intros x y. apply Nat2Z.inj.
  - apply seq_NoDup.
Qed.

Lemma length_zrange n : length (zrange n) = Z.to_nat n.
Proof. unfold zrange. now rewrite length_map, length_seq. Qed.

Lemma in_grid_threads g B t :
  In t (grid_threads g B) ->
  blockDim_x t = B /\ 0 <= blockIdx_x t < g /\ 0 <= threadIdx_x t < B.
Proof.
  unfold grid_threads. rewrite in_flat_map.
  intros [b [Hb Ht]]. apply in_map_iff in Ht. destruct Ht as [i [<- Hi]].
  apply in_zrange in Hb. apply in_zrange in Hi. cbn. lia.
Qed.

Lemma grid_threads_intro g B bi ti :
  0 <= bi < g -> 0 <= ti < B -> In (mkThread B bi ti) (grid_threads g B).
Proof.
  intros Hb Ht. unfold grid_threads. apply in_flat_map.
  exists bi. split; [now apply in_zrange |].
  apply in_map_iff. exists ti. split; [reflexivity | now apply in_zrange].
Qed.

Lemma grid_threads_succ g B :
  0 <= g ->
  grid_threads (g + 1) B
  = grid_threads g B ++ map (fun t => mkThread B g t) (zrange B).
Proof.
  intros Hg. unfold grid_threads.
  rewrite zrange_succ, flat_map_app by exact Hg. cbn [flat_map].
  now rewrite app_nil_r.
Qed.

Lemma linear_ids g B :
  0 <= g -> 0 <= B -> map linear_id (grid_threads g B) = zrange (g * B).
Proof.
  intros Hg HB. revert g Hg.
  apply natlike_ind.
  - reflexivity.
  - intros g Hg IH. unfold Z.succ.
    rewrite grid_threads_succ, map_app, IH, map_map by exact Hg.
    replace ((g + 1) * B) with (g * B + B) by lia.
    rewrite zrange_app by nia. f_equal.
    apply map_ext. intros i. unfold linear_id. cbn. lia.
Qed.

Lemma thread_ii_linear g B t :
  0 < B -> g * B <= index_limit ->
  In t (grid_threads g B) -> thread_ii t = linear_id t.
Proof.
  intros HB Hfit Hin. apply in_grid_threads in Hin.
  destruct Hin as [Hbd [Hbi Hti]].
  assert (Hlin : 0 <= linear_id t < g * B) by (unfold linear_id; nia).
  unfold thread_ii. fold (linear_id t). unfold index_limit in Hfit.
  rewrite to_uint_small by lia.
  apply to_Index_type_small. unfold Index_type. lia.
Qed.

Lemma flat_map_singletons {A C} (h : A -> list C) (f : A -> C) l :
  (forall x, In x l -> h x = [f x]) -> flat_map h l = map f l.
Proof.
  induction l as [| a l IH]; intros Hh; [reflexivity |].
  cbn. rewrite (Hh a) by now left. cbn. f_equal.
  apply IH. intros x Hx. apply Hh. now right.
Qed.

Lemma flat_map_empties {A C} (h : A -> list C) l :
  (forall x, In x l -> h x = []) -> flat_map h l = [].
Proof.
  induction l as [| a l IH]; intros Hh; [reflexivity |].
  cbn. rewrite (Hh a) by now left. cbn.
  apply IH. intros x Hx. apply Hh. now right.
Qed.

Lemma flat_map_through {A B' C} (h : A -> list C) (k : B' -> list C)
  (m : A -> B') l :
  (forall x, In x l -> h x = k (m x)) -> flat_map h l = flat_map k (map m l).
Proof.
  induction l as [| a l IH]; intros Hh; [reflexivity |].
  cbn. rewrite (Hh a) by now left. f_equal.
  apply IH. intros x Hx. apply Hh. now right.
Qed.

(** Of the [N] work items of a grid, those below [len] invoke the body, the
    others nothing. *)
Lemma guard_cuts_range len N (f : Z -> call) :
  0 <= len <= N ->
  flat_map (fun i => if i <? len then [f i] else []) (zrange N)
  = map f (zrange len).
Proof.
  intros Hlen. replace N with (len + (N - len)) by lia.
  rewrite zrange_app, flat_map_app by lia.
  rewrite (flat_map_singletons _ f).
  - rewrite flat_map_empties; [apply app_nil_r |].
    intros x Hx. apply in_map_iff in Hx. destruct Hx as [i [<- Hi]].
    apply in_zrange in Hi.
    destruct (Z.ltb_spec (len + i) len); [lia | reflexivity].
  - intros x Hx. apply in_zrange in Hx.
    destruct (Z.ltb_spec x len); [reflexivity | lia].
Qed.

Lemma guarded_grid len (f : Z -> call) g B :
  0 <= g -> 0 < B -> g * B <= index_limit -> 0 <= len <= g * B ->
  flat_map (guarded len f) (grid_threads g B) = map f (zrange len).
Proof.
  intros Hg HB Hfit Hlen.
  rewrite (flat_map_through _ (fun i => if i <? len then [f i] else [])
             linear_id).
  - rewrite linear_ids by lia. now apply guard_cuts_range.
  - intros t Ht. unfold guarded.
    now rewrite (thread_ii_linear g B t HB Hfit Ht).
Qed.

(** The same for the order in which a fair device runs the threads. *)
Lemma guarded_launch len (f : Z -> call) g B :
  fair dev ->
  0 <= g -> 0 < B -> g * B <= index_limit -> 0 <= len <= g * B ->
  Permutation (flat_map (guarded len f) (schedule dev (grid_threads g B)))
              (map f (zrange len)).
Proof.
  intros Hfair Hg HB Hfit Hlen.
  rewrite <- (guarded_grid len f g B Hg HB Hfit Hlen).
  apply Permutation_flat_map, Hfair.
Qed.

(** ** The trace *)

Lemma launches_app tr1 tr2 :
  launches (tr1 ++ tr2) = (launches tr1 + launches tr2)%nat.
Proof. unfold launches. now rewrite filter_app, length_app. Qed.

Lemma invocations_app tr1 tr2 :
  invocations (tr1 ++ tr2) = invocations tr1 ++ invocations tr2.
Proof. apply flat_map_app. Qed.

Lemma invocations_intro tr g b s calls c :
  In (KernelLaunch g b s calls) tr -> In c calls -> In c (invocations tr).
Proof.
  intros Hev Hc. unfold invocations. apply in_flat_map.
  now exists (KernelLaunch g b s calls).
Qed.

Lemma geometry_app tr1 tr2 :
  geometry (tr1 ++ tr2) = geometry tr1 ++ geometry tr2.
Proof. apply flat_map_app. Qed.

(** ** The dispatch templates in closed form *)

Lemma dispatch_async_eq k len B h :
  dispatch_async k len B h =
  match gridSize_of len B with
  | None => (Undefined, h)
  | Some gridSize =>
      let g := to_uint gridSize in
      let b := to_uint B in
      let s := launchStatus dev (launches (trace h)) g b in
      if is_cudaSuccess s then
        let issued :=
          [FT_BEGIN; KernelLaunch g b s (launch_calls k g b);
           PeekAtLastError (lastError h)] in
        if is_cudaSuccess (lastError h)
        then (Returned tt,
              mkHost (lastError h) (trace h ++ issued ++ [FT_END]))
        else (Fatal (lastError h), mkHost (lastError h) (trace h ++ issued))
      else (Fatal s,
            mkHost s (trace h ++
                      [FT_BEGIN; KernelLaunch g b s []; PeekAtLastError s]))
  end.
Proof.
  unfold dispatch_async, bind, defined, RAJA_FT_BEGIN, RAJA_FT_END, emit,
    cuda_launch, cudaPeekAtLastError, gpuErrchk, launch_calls.
  destruct (gridSize_of len B) as [gridSize |]; [| reflexivity].
  cbn [trace lastError]. rewrite launches_app, Nat.add_0_r.
  destruct (is_cudaSuccess (launchStatus dev _ _ _)) eqn:Hs;
    cbn [trace lastError].
  - destruct (is_cudaSuccess (lastError h)); cbn [trace lastError];
      now rewrite <- !app_assoc.
  - rewrite Hs. now rewrite <- !app_assoc.
Qed.

Lemma dispatch_sync_eq k len B h :
  dispatch_sync k len B h =
  match gridSize_of len B with
  | None => (Undefined, h)
  | Some gridSize =>
      let g := to_uint gridSize in
      let b := to_uint B in
      let s := launchStatus dev (launches (trace h)) g b in
      if is_cudaSuccess s then
        let issued :=
          [FT_BEGIN; KernelLaunch g b s (launch_calls k g b);
           PeekAtLastError (lastError h)] in
        if is_cudaSuccess (lastError h)
        then
          let s' := syncStatus dev (S (launches (trace h))) in
          if is_cudaSuccess s'
          then (Returned tt,
                mkHost (lastError h)
                  (trace h ++ issued ++ [DeviceSynchronize s'; FT_END]))
          else (Fatal s',
                mkHost s' (trace h ++ issued ++ [DeviceSynchronize s']))
        else (Fatal (lastError h), mkHost (lastError h) (trace h ++ issued))
      else (Fatal s,
            mkHost s (trace h ++
                      [FT_BEGIN; KernelLaunch g b s []; PeekAtLastError s]))
  end.
Proof.
  unfold dispatch_sync, bind, defined, RAJA_FT_BEGIN, RAJA_FT_END, emit,
    cuda_launch, cudaPeekAtLastError, cudaDeviceSynchronize, gpuErrchk,
    launch_calls.
  destruct (gridSize_of len B) as [gridSize |]; [| reflexivity].
  cbn [trace lastError]. rewrite launches_app, Nat.add_0_r.
  destruct (is_cudaSuccess (launchStatus dev _ _ _)) eqn:Hs;
    cbn [trace lastError].
  - destruct (is_cudaSuccess (lastError h)); cbn [trace lastError].
    + rewrite !launches_app. cbn [launches filter is_launch length].
      rewrite !Nat.add_0_r, Nat.add_1_r.
      destruct (is_cudaSuccess (syncStatus dev _)); cbn [trace lastError];
        now rewrite <- !app_assoc.
    + now rewrite <- !app_assoc.
  - rewrite Hs. now rewrite <- !app_assoc.
Qed.


Lemma forall_cuda_shape p d :
  forall_cuda p d = dispatch p (domain_kernel d) (domain_length d).
Proof. destruct p, d; reflexivity. Qed.

Lemma forall_Icount_cuda_shape p d icount :
  forall_Icount_cuda p d icount
  = dispatch p (domain_kernel_Icount d icount) (domain_length d).
Proof. destruct p, d; reflexivity. Qed.


(** Every dispatch template only adds to the trace, and adds exactly one
    launch whenever its geometry is defined. *)
Lemma dispatch_geometry p k len gridSize h :
  gridSize_of len (block_size p) = Some gridSize ->
  exists tr,
    trace (snd (dispatch p k len h)) = trace h ++ tr
    /\ geometry tr = [(to_uint gridSize, to_uint (block_size p))].
Proof.
  intros Hg. destruct p as [B | B]; cbn [dispatch block_size] in *.
  - rewrite dispatch_sync_eq, Hg. cbv zeta.
    destruct (is_cudaSuccess (launchStatus dev _ _ _));
      [destruct (is_cudaSuccess (lastError h));
       [destruct (is_cudaSuccess (syncStatus dev _)) |] |];
      cbn [snd trace]; eexists; split; reflexivity.
  - rewrite dispatch_async_eq, Hg. cbv zeta.
    destruct (is_cudaSuccess (launchStatus dev _ _ _));
      [destruct (is_cudaSuccess (lastError h)) |];
      cbn [snd trace]; eexists; split; reflexivity.
Qed.

Lemma dispatch_zero_block p k len h :
  block_size p = 0 -> dispatch p k len h = (Undefined, h).
Proof.
  intros HB. destruct p as [B | B]; cbn [dispatch block_size] in *; subst B.
  - now rewrite dispatch_sync_eq, gridSize_of_zero.
  - now rewrite dispatch_async_eq, gridSize_of_zero.
Qed.

(** The synchronous template against the asynchronous one, on the same
    kernel, length and block size. *)
Lemma dispatch_sync_vs_async k len B h :
  let '(oa, ha) := dispatch_async k len B h in
  let '(os, hs) := dispatch_sync k len B h in
  geometry (trace hs) = geometry (trace ha)
  /\ invocations (trace hs) = invocations (trace ha)
  /\ (oa <> Returned tt -> (os, hs) = (oa, ha))
  /\ (oa = Returned tt ->
      exists issued s,
        trace ha = trace h ++ issued ++ [FT_END]
        /\ ((s = cudaSuccess /\ os = Returned tt
             /\ trace hs = trace h ++ issued ++ [DeviceSynchronize s; FT_END])
            \/ (s <> cudaSuccess /\ os = Fatal s
                /\ trace hs = trace h ++ issued ++ [DeviceSynchronize s]))).
Proof.
  rewrite dispatch_async_eq, dispatch_sync_eq.
  assert (Hsame : forall (o : outcome unit) (x : Host),
            (exists e, o = Fatal e) \/ o = Undefined ->
            geometry (trace x) = geometry (trace x)
            /\ invocations (trace x) = invocations (trace x)
            /\ (o <> Returned tt -> (o, x) = (o, x))
            /\ (o = Returned tt ->
                exists issued s,
                  trace x = trace h ++ issued ++ [FT_END]
                  /\ ((s = cudaSuccess /\ o = Returned tt
                       /\ trace x
                          = trace h ++ issued ++ [DeviceSynchronize s; FT_END])
                      \/ (s <> cudaSuccess /\ o = Fatal s
                          /\ trace x
                             = trace h ++ issued ++ [DeviceSynchronize s])))).
  { intros o x Ho. repeat (split; [reflexivity |]).
    intros ->. destruct Ho as [[e He] | He]; discriminate He. }
  destruct (gridSize_of len B) as [gridSize |];
    [| apply Hsame; now right].
  cbv zeta.
  destruct (is_cudaSuccess (launchStatus dev _ _ _));
    [| apply Hsame; left; now eexists].
  destruct (is_cudaSuccess (lastError h));
    [| apply Hsame; left; now eexists].
  clear Hsame.
  destruct (is_cudaSuccess (syncStatus dev (S (launches (trace h)))))
    eqn:Hs; cbn [trace].
  - split; [| split; [| split]].
    + rewrite !geometry_app. cbn. now rewrite ?app_nil_r.
    + rewrite !invocations_app. cbn. now rewrite ?app_nil_r.
    + congruence.
    + intros _. eexists. exists (syncStatus dev (S (launches (trace h)))).
      split; [reflexivity |]. left. repeat split.
      destruct (syncStatus dev _); [reflexivity | discriminate Hs ..].
  - split; [| split; [| split]].
    + rewrite !geometry_app. cbn. now rewrite ?app_nil_r.
    + rewrite !invocations_app. cbn. now rewrite ?app_nil_r.
    + congruence.
    + intros _. eexists. exists (syncStatus dev (S (launches (trace h)))).
      split; [reflexivity |]. right. repeat split.
      intros Heq. rewrite Heq in Hs. discriminate Hs.
Qed.

(** ** Launch geometry *)

(** C4 (as amended).  For every domain length [len >= 0] and every group size
    [B >= 1] for which the [size_t] sum [len + B - 1] does not wrap
    ([len + B - 1 < 2^64]), every dispatch template, counted or not,
    synchronous or not, computes the launch geometry [ceil (len / B)] and
    issues one launch with it; for [B = 1] the geometry is [len], and for
    [len = 5], [B = 4] it is 2 groups. *)
Theorem launch_geometry_is_ceiling :
  forall (p : exec_policy) (d : domain) (icount : Z) (h : Host),
    0 <= domain_length d ->
    1 <= block_size p ->
    domain_length d + block_size p - 1 < 2 ^ 64 ->
    gridSize_of (domain_length d) (block_size p)
    = Some (ceil_div (domain_length d) (block_size p))
    /\ (exists tr,
          trace (snd (forall_cuda p d h)) = trace h ++ tr
          /\ geometry tr
             = [(to_uint (ceil_div (domain_length d) (block_size p)),
                 to_uint (block_size p))])
    /\ (exists tr,
          trace (snd (forall_Icount_cuda p d icount h)) = trace h ++ tr
          /\ geometry tr
             = [(to_uint (ceil_div (domain_length d) (block_size p)),
                 to_uint (block_size p))])
    /\ (block_size p = 1 ->
        gridSize_of (domain_length d) (block_size p)
        = Some (domain_length d))
    /\ gridSize_of 5 4 = Some 2.
Proof.
  intros p d icount h Hlen HB Hfit.
  pose proof (gridSize_of_ceil _ _ Hlen HB Hfit) as Hg.
  split; [exact Hg |]. split; [| split; [| split]].
  - rewrite forall_cuda_shape. now apply dispatch_geometry.
  - rewrite forall_Icount_cuda_shape. now apply dispatch_geometry.
  - intros H1. rewrite Hg, H1. f_equal.
    apply ceil_div_unique; lia.
  - reflexivity.
Qed.

(** ** Degenerate launches *)



(** ** Synchronous against asynchronous dispatch *)

(** C10.  For every [begin], [end] and group size, from every host state,
    [forall(cuda_exec)] and [forall(cuda_exec_async)] issue launches of the
    same geometry with the same loop-body invocations.  When the
    asynchronous dispatch does not return, the synchronous one ends in the
    same way in the same state; when it returns, the synchronous one has
    issued the same events and then one device synchronization whose status
    it checks, returning if that status is [cudaSuccess] and failing with
    it otherwise. *)
Theorem sync_and_async_differ_by_synchronization :
  forall (BLOCK_SIZE begin end_ : Z) (h : Host),
    let '(oa, ha) := forall_cuda_exec_async BLOCK_SIZE begin end_ h in
    let '(os, hs) := forall_cuda_exec BLOCK_SIZE begin end_ h in
    geometry (trace hs) = geometry (trace ha)
    /\ invocations (trace hs) = invocations (trace ha)
    /\ (oa <> Returned tt -> (os, hs) = (oa, ha))
    /\ (oa = Returned tt ->
        exists issued s,
          trace ha = trace h ++ issued ++ [FT_END]
          /\ ((s = cudaSuccess /\ os = Returned tt
               /\ trace hs
                  = trace h ++ issued ++ [DeviceSynchronize s; FT_END])
              \/ (s <> cudaSuccess /\ os = Fatal s
                  /\ trace hs = trace h ++ issued ++ [DeviceSynchronize s]))).
Proof.
  intros B begin end_ h.
  exact (dispatch_sync_vs_async
           (forall_cuda_kernel begin (Index_sub end_ begin))
           (Index_sub end_ begin) B h).
Qed.


(** ** Dispatches that return *)

Lemma is_cudaSuccess_true e : is_cudaSuccess e = true <-> e = cudaSuccess.
Proof. destruct e; cbn; split; congruence. Qed.

Lemma dispatch_returned p k len h h' :
  dispatch p k len h = (Returned tt, h') ->
  exists gridSize,
    gridSize_of len (block_size p) = Some gridSize
    /\ lastError h = cudaSuccess
    /\ lastError h' = cudaSuccess
    /\ launchStatus dev (launches (trace h))
         (to_uint gridSize) (to_uint (block_size p)) = cudaSuccess
    /\ trace h'
       = trace h
         ++ [FT_BEGIN;
             KernelLaunch (to_uint gridSize) (to_uint (block_size p))
               cudaSuccess
               (launch_calls k (to_uint gridSize) (to_uint (block_size p)));
             PeekAtLastError cudaSuccess]
         ++ (if synchronous p then [DeviceSynchronize cudaSuccess] else [])
         ++ [FT_END].
Proof.
  destruct p as [B | B]; cbn [dispatch block_size synchronous].
  - rewrite dispatch_sync_eq.
    destruct (gridSize_of len B) as [gridSize |]; [| discriminate].
    cbv zeta.
    destruct (is_cudaSuccess (launchStatus dev _ _ _)) eqn:Hl;
      [| discriminate].
    destruct (is_cudaSuccess (lastError h)) eqn:He; [| discriminate].
    destruct (is_cudaSuccess (syncStatus dev _)) eqn:Hs; [| discriminate].
    apply is_cudaSuccess_true in Hl, He, Hs.
    intros [= <-]. exists gridSize. cbn [lastError trace].
    rewrite Hl, He, Hs. repeat split; reflexivity.
  - rewrite dispatch_async_eq.
    destruct (gridSize_of len B) as [gridSize |]; [| discriminate].
    cbv zeta.
    destruct (is_cudaSuccess (launchStatus dev _ _ _)) eqn:Hl;
      [| discriminate].
    destruct (is_cudaSuccess (lastError h)) eqn:He; [| discriminate].
    apply is_cudaSuccess_true in Hl, He.
    intros [= <-]. exists gridSize. cbn [lastError trace].
    rewrite Hl, He. repeat split; reflexivity.
Qed.

(** A dispatch of a guarded kernel that returns has invoked the body on the
    items [0 .. len-1], each once, in some order. *)
Lemma dispatch_guarded p len (f : Z -> call) h h' :
  fair dev ->
  0 <= len ->
  fits_launch len (block_size p) ->
  dispatch p (guarded len f) len h = (Returned tt, h') ->
  exists tr,
    trace h' = trace h ++ tr
    /\ geometry tr = [(ceil_div len (block_size p), block_size p)]
    /\ Permutation (invocations tr) (map f (zrange len)).
Proof.
  intros Hfair Hlen [HB [Hg Hfit]] Hrun.
  apply dispatch_returned in Hrun.
  destruct Hrun as [gridSize [Hgs [_ [_ [_ Htr]]]]].
  pose proof (ceil_div_bounds len (block_size p) ltac:(lia)) as Hc.
  pose proof (ceil_div_nonneg len (block_size p) ltac:(lia) Hlen) as Hc0.
  assert (Hlim : index_limit <= 2 ^ 32) by apply Z.le_min_l.
  rewrite gridSize_of_ceil in Hgs by lia.
  injection Hgs as <-.
  rewrite !to_uint_small in Htr by lia.
  eexists. split; [exact Htr |]. split.
  - rewrite !geometry_app. destruct (synchronous p); reflexivity.
  - rewrite !invocations_app.
    replace (invocations
               (if synchronous p
                then [DeviceSynchronize cudaSuccess] else []))
      with (@nil call) by (destruct (synchronous p); reflexivity).
    cbn. rewrite !app_nil_r.
    apply guarded_launch; try assumption; lia.
Qed.

(** Counting the occurrences of an invocation among those of distinct
    items. *)
Lemma count_occ_distinct (f : Z -> call) len c :
  (forall x y, f x = f y -> x = y) ->
  count_occ call_eq_dec (map f (zrange len)) c
  = if in_dec call_eq_dec c (map f (zrange len)) then 1%nat else 0%nat.
Proof.
  intros Hinj.
  destruct (in_dec call_eq_dec c (map f (zrange len))) as [Hin | Hout].
  - revert c Hin. apply NoDup_count_occ'.
    apply Finite.Injective_map_NoDup; [exact Hinj | apply NoDup_zrange].
  - now apply count_occ_not_In.
Qed.


Lemma in_shifted_range begin len i :
  In (Call1 i) (map (fun ii => Call1 (begin + ii)) (zrange len))
  <-> begin <= i < begin + len.
Proof.
  rewrite in_map_iff. split.
  - intros [ii [[= <-] Hii]]. apply in_zrange in Hii. lia.
  - intros Hi. exists (i - begin). split; [f_equal; lia |].
    apply in_zrange. lia.
Qed.

(** ** Index ranges *)

(** C1 (as amended).  For every [ContiguousRange(begin, end)] whose length
    [end - begin] is a non-negative [Index_type], and every group size [B]
    with [0 < B < 2^32] for which the launch stays within the machine
    integers ([fits_launch]), a dispatch over the range that returns, under
    either policy, has issued one launch of [ceil (len / B)] groups of [B]
    work items and has invoked the operation exactly once for each index of
    [begin .. end-1] and for no other index: the work items beyond [len] in
    the last group invoke nothing. *)
Theorem forall_range_visits_each_index_once :
  forall (p : exec_policy) (begin end_ : Z) (h h' : Host),
    fair dev ->
    Index_type index_bits begin ->
    Index_type index_bits end_ ->
    0 <= end_ - begin < 2 ^ (index_bits - 1) ->
    fits_launch (end_ - begin) (block_size p) ->
    forall_cuda p (IndexRange begin end_) h = (Returned tt, h') ->
    exists tr,
      trace h' = trace h ++ tr
      /\ geometry tr
         = [(ceil_div (end_ - begin) (block_size p), block_size p)]
      /\ Permutation (invocations tr)
           (map (fun ii => Call1 (begin + ii)) (zrange (end_ - begin)))
      /\ (forall i,
            count_occ call_eq_dec (invocations tr) (Call1 i)
            = if (begin <=? i) && (i <? end_) then 1%nat else 0%nat)
      /\ (forall icount i,
            count_occ call_eq_dec (invocations tr) (Call2 icount i) = 0%nat).
Proof.
  intros p begin end_ h h' Hfair Hb He Hlen Hfit Hrun.
  rewrite forall_cuda_shape in Hrun. cbn [domain_kernel domain_length] in Hrun.
  assert (Hsub : Index_sub end_ begin = end_ - begin).
  { apply to_Index_type_small. unfold Index_type. lia. }
  rewrite Hsub in Hrun.
  change (forall_cuda_kernel begin (end_ - begin))
    with (guarded (end_ - begin) (fun ii => Call1 (Index_add begin ii)))
    in Hrun.
  apply dispatch_guarded in Hrun; [| assumption | lia | assumption].
  destruct Hrun as [tr [Htr [Hgeo Hperm]]].
  assert (Hperm' : Permutation (invocations tr)
            (map (fun ii => Call1 (begin + ii)) (zrange (end_ - begin)))).
  { rewrite Hperm. apply Permutation_refl'. apply map_ext_in.
    intros ii Hii. apply in_zrange in Hii. f_equal.
    apply to_Index_type_small. unfold Index_type in *. lia. }
  exists tr. repeat split; try assumption.
  - intros i. rewrite (Permutation_count_occ call_eq_dec) in Hperm'.
    rewrite Hperm', count_occ_distinct by (intros x y [= Hxy]; lia).
    destruct (in_dec call_eq_dec _ _) as [Hin | Hout].
    + apply in_shifted_range in Hin.
      destruct (Z.leb_spec begin i), (Z.ltb_spec i end_); cbn; lia.
    + rewrite in_shifted_range in Hout.
      destruct (Z.leb_spec begin i), (Z.ltb_spec i end_); cbn; lia.
  - intros icount i. rewrite (Permutation_count_occ call_eq_dec) in Hperm'.
    rewrite Hperm'. apply count_occ_not_In. rewrite in_map_iff.
    intros [ii [Hii _]]. discriminate Hii.
Qed.

(** ** Indirection arrays *)

(** C3 (as amended).  For every indirection array ([idx], length [L >= 0])
    and every group size [B] with [0 < B < 2^32] for which the launch stays
    within the machine integers ([fits_launch]), a dispatch over the array
    that returns, under either policy, has invoked the operation with
    [idx[i]] once for each position [i] of [0 .. L-1], in some order, and
    not otherwise; the argument is read from the array. *)
Theorem forall_indirection_visits_each_position_once :
  forall (p : exec_policy) (idx : Z -> Z) (len : Z) (h h' : Host),
    fair dev ->
    0 <= len ->
    fits_launch len (block_size p) ->
    forall_cuda p (IndirectionArray idx len) h = (Returned tt, h') ->
    exists tr,
      trace h' = trace h ++ tr
      /\ geometry tr = [(ceil_div len (block_size p), block_size p)]
      /\ Permutation (invocations tr)
           (map (fun i => Call1 (idx i)) (zrange len)).
Proof.
  intros p idx len h h' Hfair Hlen Hfit Hrun.
  rewrite forall_cuda_shape in Hrun. cbn [domain_kernel domain_length] in Hrun.
  change (forall_cuda_kernel_idx idx len)
    with (guarded len (fun ii => Call1 (idx ii))) in Hrun.
  now apply dispatch_guarded in Hrun.
Qed.

(** ** Empty domains *)

Lemma gridSize_of_empty B : 1 <= B < 2 ^ 64 -> gridSize_of 0 B = Some 0.
Proof.
  intros HB. now rewrite gridSize_of_ceil by lia.
Qed.

Lemma launch_calls_empty k b : fair dev -> launch_calls k 0 b = [].
Proof.
  intros Hfair. unfold launch_calls. change (grid_threads 0 b) with (@nil thread).
  pose proof (Hfair []) as Hp. apply Permutation_sym, Permutation_nil in Hp.
  now rewrite Hp.
Qed.

Lemma dispatch_empty p k h :
  fair dev ->
  1 <= block_size p < 2 ^ 64 ->
  empty_dispatch p h (dispatch p k 0 h).
Proof.
  intros Hfair HB. unfold empty_dispatch.
  destruct p as [B | B]; cbn [dispatch block_size synchronous] in *.
  - rewrite dispatch_sync_eq, gridSize_of_empty by exact HB.
    change (to_uint 0) with 0. cbv zeta. rewrite launch_calls_empty by exact Hfair.
    destruct (launchStatus dev _ _ _) eqn:Hl; cbn [is_cudaSuccess].
    2-4: eexists; cbn [fst snd trace];
      repeat split; try reflexivity; try discriminate;
      intros [Hk _]; discriminate Hk.
    destruct (lastError h) eqn:He; cbn [is_cudaSuccess].
    2-4: eexists; cbn [fst snd trace];
      repeat split; try reflexivity; try discriminate;
      intros [_ [Hk _]]; discriminate Hk.
    destruct (syncStatus dev _) eqn:Hs; cbn [is_cudaSuccess].
    2-4: eexists; cbn [fst snd trace];
      repeat split; try reflexivity; try discriminate;
      intros [_ [_ Hk]]; specialize (Hk eq_refl); discriminate Hk.
    eexists; cbn [fst snd trace]; repeat split; try reflexivity;
      discriminate.
  - rewrite dispatch_async_eq, gridSize_of_empty by exact HB.
    change (to_uint 0) with 0. cbv zeta. rewrite launch_calls_empty by exact Hfair.
    destruct (launchStatus dev _ _ _) eqn:Hl; cbn [is_cudaSuccess].
    2-4: eexists; cbn [fst snd trace];
      repeat split; try reflexivity; try discriminate;
      intros [Hk _]; discriminate Hk.
    destruct (lastError h) eqn:He; cbn [is_cudaSuccess].
    2-4: eexists; cbn [fst snd trace];
      repeat split; try reflexivity; try discriminate;
      intros [_ [Hk _]]; discriminate Hk.
    eexists; cbn [fst snd trace]; repeat split; try reflexivity;
      discriminate.
Qed.

(** C7 (as amended).  For every dispatch over a domain of length 0, under
    either policy, counted or not, and every group size [1 <= B < 2^64], the
    launch statement is still executed, with a geometry of 0 groups, and the
    operation is invoked zero times.  No template guards against the empty
    domain: the dispatch returns successfully exactly when the device
    reports no error for that empty launch, no earlier error is pending
    and, under the synchronous policy, the synchronization reports none;
    otherwise it raises a fatal device error. *)
Theorem empty_domain_is_launched_with_zero_groups :
  forall (p : exec_policy) (d : domain) (icount : Z) (h : Host),
    fair dev ->
    domain_length d = 0 ->
    1 <= block_size p < 2 ^ 64 ->
    empty_dispatch p h (forall_cuda p d h)
    /\ empty_dispatch p h (forall_Icount_cuda p d icount h).
Proof.
  intros p d icount h Hfair Hlen HB. split.
  - rewrite forall_cuda_shape, Hlen. now apply dispatch_empty.
  - rewrite forall_Icount_cuda_shape, Hlen. now apply dispatch_empty.
Qed.


(** ** The segment loop *)

Lemma segment_dispatch_shape counted p seg_info :
  segment_dispatch counted p seg_info
  = dispatch p (segment_kernel counted seg_info)
      (segment_length (getSegment seg_info)).
Proof.
  unfold segment_dispatch, segment_kernel, executeRangeList_forall,
    executeRangeList_forall_Icount.
  destruct counted, (getSegment seg_info); cbn [segment_domain segment_length].
  - now rewrite forall_Icount_cuda_shape.
  - now rewrite forall_Icount_cuda_shape.
  - now rewrite forall_cuda_shape.
  - now rewrite forall_cuda_shape.
Qed.

(** The loop over [isi = 0 .. num_seg-1] runs the body on the segments in
    the order of the index set. *)
Lemma for_each_segments body pre l h :
  for_each
    (map (Z.add (Z.of_nat (length pre))) (zrange (Z.of_nat (length l))))
    (fun isi =>
       seg_info <- defined (getSegmentInfo (pre ++ l) isi) ;; body seg_info) h
  = for_segments body l h.
Proof.
  revert pre h. induction l as [| s r IH]; intros pre h; [reflexivity |].
  cbn [length]. rewrite Nat2Z.inj_succ, <- Z.add_1_l.
  rewrite zrange_app by lia. change (zrange 1) with [0].
  cbn [app map for_each for_segments]. unfold bind at 1 2.
  replace (getSegmentInfo (pre ++ s :: r) (Z.of_nat (length pre) + 0))
    with (Some s).
  2:{ unfold getSegmentInfo.
      replace (Z.to_nat (Z.of_nat (length pre) + 0)) with (length pre) by lia.
      rewrite nth_error_app2, Nat.sub_diag by lia. reflexivity. }
  cbn [defined]. unfold bind at 2.
  destruct (body s h) as [[[] | e |] h1]; try reflexivity.
  rewrite map_map.
  replace (pre ++ s :: r) with ((pre ++ [s]) ++ r)
    by (now rewrite <- app_assoc).
  rewrite <- (IH (pre ++ [s]) h1). f_equal.
  apply map_ext. intros i. rewrite length_app. cbn [length]. lia.
Qed.

Lemma walk_eq counted B iset h :
  walk counted B iset h
  = (for_segments (segment_dispatch counted (cuda_exec_async B)) iset ;;
     trailing_check) h.
Proof.
  assert (Hloop : forall body,
    for_each (zrange (getNumSegments iset))
      (fun isi => seg_info <- defined (getSegmentInfo iset isi) ;;
                  body seg_info) h
    = for_segments body iset h).
  { intros body. rewrite <- (for_each_segments body [] iset h).
    cbn [length app]. f_equal. unfold getNumSegments.
    rewrite <- (map_id (zrange _)) at 1. now apply map_ext. }
  unfold walk, forall_Icount_IndexSet, forall_IndexSet, segment_dispatch.
  destruct counted; unfold bind at 1; rewrite Hloop; reflexivity.
Qed.

Lemma trailing_check_eq h :
  trailing_check h =
  if is_cudaSuccess (lastError h) then
    let s := syncStatus dev (launches (trace h)) in
    if is_cudaSuccess s
    then (Returned tt,
          mkHost (lastError h)
            (trace h ++ [PeekAtLastError (lastError h); DeviceSynchronize s]))
    else (Fatal s,
          mkHost s
            (trace h ++ [PeekAtLastError (lastError h); DeviceSynchronize s]))
  else (Fatal (lastError h),
        mkHost (lastError h) (trace h ++ [PeekAtLastError (lastError h)])).
Proof.
  unfold trailing_check, bind, cudaPeekAtLastError, cudaDeviceSynchronize,
    gpuErrchk.
  destruct (is_cudaSuccess (lastError h)); [| reflexivity].
  cbn [trace lastError]. rewrite launches_app. cbn [launches filter is_launch length].
  rewrite Nat.add_0_r. cbv zeta.
  destruct (is_cudaSuccess (syncStatus dev _));
    cbn [trace lastError]; now rewrite <- !app_assoc.
Qed.

Lemma for_segments_app body l1 l2 h :
  for_segments body (l1 ++ l2) h
  = (for_segments body l1 ;; for_segments body l2) h.
Proof.
  revert h. induction l1 as [| s r IH]; intros h; [reflexivity |].
  cbn [app for_segments]. unfold bind. 
  destruct (body s h) as [[[] | e |] h1]; try reflexivity.
  rewrite IH. reflexivity.
Qed.

(** An asynchronous dispatch that returns has added its four events and left
    the last error as it was, [cudaSuccess]. *)
Lemma async_returned k len B h h' :
  dispatch_async k len B h = (Returned tt, h') ->
  trace h' = trace h ++ async_events k len B
  /\ lastError h = cudaSuccess
  /\ lastError h' = cudaSuccess
  /\ exists gridSize, gridSize_of len B = Some gridSize.
Proof.
  intros Hrun.
  apply (dispatch_returned (cuda_exec_async B)) in Hrun.
  destruct Hrun as [gridSize [Hg [He [He' [_ Htr]]]]].
  cbn [block_size synchronous] in *. unfold async_events. rewrite Hg.
  repeat split; try assumption. now exists gridSize.
Qed.

Lemma for_segments_returned counted B l h h' :
  for_segments (segment_dispatch counted (cuda_exec_async B)) l h
  = (Returned tt, h') ->
  trace h' = trace h ++ flat_map (segment_events counted B) l
  /\ lastError h' = lastError h
  /\ Forall (fun seg_info =>
               exists gridSize,
                 gridSize_of (segment_length (getSegment seg_info)) B
                 = Some gridSize) l.
Proof.
  revert h. induction l as [| s r IH]; intros h Hrun.
  - injection Hrun as <-. cbn. now rewrite app_nil_r.
  - cbn [for_segments] in Hrun. unfold bind in Hrun.
    destruct (segment_dispatch counted (cuda_exec_async B) s h)
      as [[[] | e |] h1] eqn:Hs; try discriminate.
    rewrite segment_dispatch_shape in Hs. cbn [dispatch] in Hs.
    apply async_returned in Hs. destruct Hs as [Htr [He [He' Hg]]].
    apply IH in Hrun. destruct Hrun as [Htr' [He'' Hall]].
    repeat split.
    + rewrite Htr', Htr. cbn [flat_map]. unfold segment_events at 2.
      now rewrite <- app_assoc.
    + congruence.
    + now constructor.
Qed.


Lemma segment_events_shape counted B seg_info gridSize :
  gridSize_of (segment_length (getSegment seg_info)) B = Some gridSize ->
  segment_events counted B seg_info
  = [FT_BEGIN;
     KernelLaunch (to_uint gridSize) (to_uint B) cudaSuccess
       (launch_calls (segment_kernel counted seg_info)
          (to_uint gridSize) (to_uint B));
     PeekAtLastError cudaSuccess;
     FT_END].
Proof. intros Hg. unfold segment_events, async_events. now rewrite Hg. Qed.

Lemma segments_one_launch_each counted B l :
  Forall (fun seg_info =>
            exists gridSize,
              gridSize_of (segment_length (getSegment seg_info)) B
              = Some gridSize) l ->
  launches (flat_map (segment_events counted B) l) = length l
  /\ filter is_sync (flat_map (segment_events counted B) l) = [].
Proof.
  induction 1 as [| s r [gridSize Hg] _ [IHl IHs]]; [split; reflexivity |].
  cbn [flat_map length]. rewrite launches_app, filter_app, IHl, IHs.
  rewrite (segment_events_shape counted B s gridSize Hg). split; reflexivity.
Qed.

(** An asynchronous dispatch that fails with a device error has issued its
    launch and seen the error at the status check that follows it. *)
Lemma async_fatal k len B h h' e :
  dispatch_async k len B h = (Fatal e, h') ->
  exists g b s calls,
    trace h' = trace h ++ [FT_BEGIN; KernelLaunch g b s calls;
                           PeekAtLastError e].
Proof.
  rewrite dispatch_async_eq.
  destruct (gridSize_of len B) as [gridSize |]; [| discriminate].
  cbv zeta.
  destruct (is_cudaSuccess (launchStatus dev _ _ _)).
  - destruct (is_cudaSuccess (lastError h)); [discriminate |].
    intros [= <- <-]. cbn [trace]. now do 4 eexists.
  - intros [= <- <-]. cbn [trace]. now do 4 eexists.
Qed.

(** A walk that returns has issued the events of the asynchronous dispatch
    of each segment, in order, then one status check and one
    synchronization. *)
Lemma walk_returned counted B iset h h' :
  walk counted B iset h = (Returned tt, h') ->
  trace h'
  = trace h
    ++ flat_map (segment_events counted B) iset
    ++ [PeekAtLastError cudaSuccess; DeviceSynchronize cudaSuccess]
  /\ Forall (fun seg_info =>
               exists gridSize,
                 gridSize_of (segment_length (getSegment seg_info)) B
                 = Some gridSize) iset.
Proof.
  intros Hrun.
  rewrite walk_eq in Hrun. unfold bind in Hrun.
  destruct (for_segments _ iset h) as [[[] | e |] h1] eqn:Hloop;
    try discriminate.
  apply for_segments_returned in Hloop. destruct Hloop as [Htr [He Hall]].
  rewrite trailing_check_eq in Hrun.
  destruct (is_cudaSuccess (lastError h1)) eqn:He1; [| discriminate].
  cbv zeta in Hrun.
  destruct (is_cudaSuccess (syncStatus dev _)) eqn:Hs; [| discriminate].
  apply is_cudaSuccess_true in He1, Hs.
  injection Hrun as <-. cbn [trace]. rewrite He1, Hs, Htr.
  split; [now rewrite <- app_assoc | exact Hall].
Qed.

(** Whatever their outcome, the asynchronous dispatches of the segments add
    no device synchronization to the trace. *)
Lemma dispatch_async_adds k len B h :
  exists tr,
    trace (snd (dispatch_async k len B h)) = trace h ++ tr
    /\ filter is_sync tr = [].
Proof.
  rewrite dispatch_async_eq.
  destruct (gridSize_of len B) as [gridSize |].
  - cbv zeta.
    destruct (is_cudaSuccess (launchStatus dev _ _ _));
      [destruct (is_cudaSuccess (lastError h)) |];
      cbn [snd trace]; eexists; split; reflexivity.
  - exists []. cbn [snd]. now rewrite app_nil_r.
Qed.

Lemma for_segments_adds counted B l h :
  exists tr,
    trace (snd (for_segments
                  (segment_dispatch counted (cuda_exec_async B)) l h))
    = trace h ++ tr
    /\ filter is_sync tr = [].
Proof.
  revert h. induction l as [| s r IH]; intros h.
  - exists []. cbn. now rewrite app_nil_r.
  - cbn [for_segments]. unfold bind.
    rewrite segment_dispatch_shape. cbn [dispatch].
    destruct (dispatch_async_adds (segment_kernel counted s)
                (segment_length (getSegment s)) B h) as [tr1 [Htr1 Hs1]].
    destruct (dispatch_async _ _ B h) as [[[] | e |] h1];
      cbn [snd] in Htr1; try (exists tr1; now split).
    destruct (IH h1) as [tr2 [Htr2 Hs2]].
    exists (tr1 ++ tr2). split.
    + now rewrite Htr2, Htr1, <- app_assoc.
    + now rewrite filter_app, Hs1, Hs2.
Qed.

Lemma walk_adds counted B iset h :
  exists tr,
    trace (snd (walk counted B iset h)) = trace h ++ tr
    /\ synchronizes_only_last tr.
Proof.
  rewrite walk_eq. unfold bind.
  destruct (for_segments_adds counted B iset h) as [tr1 [Htr1 Hs1]].
  destruct (for_segments _ iset h) as [[[] | e |] h1]; cbn [snd] in Htr1.
  - rewrite trailing_check_eq.
    destruct (is_cudaSuccess (lastError h1)).
    + cbv zeta.
      exists (tr1 ++ [PeekAtLastError (lastError h1);
                      DeviceSynchronize (syncStatus dev (launches (trace h1)))]).
      split.
      * destruct (is_cudaSuccess (syncStatus dev _)); cbn [snd trace];
          now rewrite Htr1, <- app_assoc.
      * exists (tr1 ++ [PeekAtLastError (lastError h1)]). split.
        -- rewrite filter_app, Hs1. reflexivity.
        -- right. eexists. now rewrite <- app_assoc.
    + exists (tr1 ++ [PeekAtLastError (lastError h1)]). split.
      * cbn [snd trace]. now rewrite Htr1, <- app_assoc.
      * eexists. split; [| left; reflexivity].
        rewrite filter_app, Hs1. reflexivity.
  - exists tr1. split; [exact Htr1 |]. exists tr1. split; [exact Hs1 | now left].
  - exists tr1. split; [exact Htr1 |]. exists tr1. split; [exact Hs1 | now left].
Qed.

(** ** Walks over index sets *)

(** The segments of a list are dispatched, each by a launch the device
    takes, when no error is pending: the loop returns, having issued the
    events of the asynchronous dispatch of each segment, in order. *)
Lemma for_segments_runs counted B l h :
  lastError h = cudaSuccess ->
  (forall i seg_info,
     nth_error l i = Some seg_info ->
     exists gridSize,
       gridSize_of (segment_length (getSegment seg_info)) B = Some gridSize
       /\ launchStatus dev (launches (trace h) + i)
            (to_uint gridSize) (to_uint B) = cudaSuccess) ->
  for_segments (segment_dispatch counted (cuda_exec_async B)) l h
  = (Returned tt,
     mkHost cudaSuccess (trace h ++ flat_map (segment_events counted B) l)).
Proof.
  revert h. induction l as [| s r IH]; intros h He Hall.
  - destruct h as [e tr]. cbn in *. subst e. now rewrite app_nil_r.
  - destruct (Hall 0%nat s eq_refl) as [gridSize [Hg Hl]].
    rewrite Nat.add_0_r in Hl.
    cbn [for_segments flat_map]. unfold bind.
    rewrite segment_dispatch_shape. cbn [dispatch].
    rewrite dispatch_async_eq, Hg. cbv zeta.
    rewrite Hl, He. cbn [is_cudaSuccess].
    rewrite IH.
    + cbn [trace].
      rewrite (segment_events_shape counted B s gridSize Hg).
      now rewrite <- !app_assoc.
    + reflexivity.
    + intros i seg_info Hi. cbn [trace].
      destruct (Hall (S i) seg_info Hi) as [g [Hg' Hl']].
      exists g. split; [exact Hg' |].
      rewrite launches_app. cbn [launches filter is_launch length app].
      now replace (launches (trace h) + 1 + i)%nat
        with (launches (trace h) + S i)%nat by lia.
Qed.

(** C5.  For every index set walked under the synchronous device policy
    [cuda_exec<BLOCK_SIZE>], with or without index count.  Whatever the
    outcome, the walk adds no device synchronization to the trace except
    possibly as its last event.  When no error is pending, the device
    takes the launch of each segment and reports no error at the
    synchronization, the walk returns, having issued, for the segments
    0 .. N-1 in this order, the four events of the asynchronous dispatch
    template of each segment (scope entry, launch, status check, scope exit:
    no synchronization), then one status check followed by one device
    synchronization, and nothing else.  A walk that returns has issued
    these events in every case. *)
Theorem walk_dispatches_async_then_synchronizes_once :
  forall (counted : bool) (BLOCK_SIZE : Z) (iset : IndexSet) (h : Host),
    (exists tr,
       trace (snd (walk counted BLOCK_SIZE iset h)) = trace h ++ tr
       /\ synchronizes_only_last tr)
    /\ (lastError h = cudaSuccess ->
        (forall i seg_info,
           nth_error iset i = Some seg_info ->
           exists gridSize,
             gridSize_of (segment_length (getSegment seg_info)) BLOCK_SIZE
             = Some gridSize
             /\ launchStatus dev (launches (trace h) + i)
                  (to_uint gridSize) (to_uint BLOCK_SIZE) = cudaSuccess) ->
        syncStatus dev (launches (trace h) + length iset) = cudaSuccess ->
        walk counted BLOCK_SIZE iset h
        = (Returned tt,
           mkHost cudaSuccess
             (trace h
              ++ flat_map (segment_events counted BLOCK_SIZE) iset
              ++ [PeekAtLastError cudaSuccess;
                  DeviceSynchronize cudaSuccess])))
    /\ (forall h',
          walk counted BLOCK_SIZE iset h = (Returned tt, h') ->
          trace h'
          = trace h
            ++ flat_map (segment_events counted BLOCK_SIZE) iset
            ++ [PeekAtLastError cudaSuccess; DeviceSynchronize cudaSuccess]
          /\ Forall (fun seg_info =>
                       exists g calls,
                         segment_events counted BLOCK_SIZE seg_info
                         = [FT_BEGIN;
                            KernelLaunch g (to_uint BLOCK_SIZE) cudaSuccess
                              calls;
                            PeekAtLastError cudaSuccess;
                            FT_END]) iset
          /\ (forall seg_info hs hs',
                segment_dispatch counted (cuda_exec_async BLOCK_SIZE)
                  seg_info hs
                = (Returned tt, hs') ->
                trace hs'
                = trace hs ++ segment_events counted BLOCK_SIZE seg_info)
          /\ filter is_sync
               (flat_map (segment_events counted BLOCK_SIZE) iset) = []
          /\ launches (flat_map (segment_events counted BLOCK_SIZE) iset)
             = length iset).
Proof.
  intros counted B iset h. split; [apply walk_adds |]. split.
  - intros He Hall Hs.
    assert (Hdef : Forall (fun seg_info =>
              exists gridSize,
                gridSize_of (segment_length (getSegment seg_info)) B
                = Some gridSize) iset).
    { apply Forall_forall. intros seg_info Hin.
      apply In_nth_error in Hin. destruct Hin as [i Hi].
      destruct (Hall i seg_info Hi) as [gridSize [Hg _]].
      now exists gridSize. }
    destruct (segments_one_launch_each counted B iset Hdef) as [Hl _].
    rewrite walk_eq. unfold bind.
    rewrite (for_segments_runs counted B iset h He Hall).
    rewrite trailing_check_eq. cbn [lastError trace is_cudaSuccess].
    cbv zeta. rewrite launches_app, Hl, Hs. cbn [is_cudaSuccess].
    now rewrite <- app_assoc.
  - intros h' Hrun.
    apply walk_returned in Hrun. destruct Hrun as [Htr Hall].
    destruct (segments_one_launch_each counted B iset Hall) as [Hl Hf].
    repeat split; try assumption.
    + clear -Hall. induction Hall as [| s r [gridSize Hg] _ IH]; constructor.
      * do 2 eexists. exact (segment_events_shape counted B s gridSize Hg).
      * exact IH.
    + intros seg_info hs hs' Hd.
      rewrite segment_dispatch_shape in Hd. cbn [dispatch] in Hd.
      now apply async_returned in Hd.
Qed.

(** C6.  For every walk, with or without index count: if the segments
    before segment [k] have been dispatched and the dispatch of segment [k]
    fails with a device error [e], the walk ends with the fatal error [e]
    in the state that dispatch left: the events of the segments already
    issued are still there, followed by the failed launch and the status
    check that saw [e]; no later segment is dispatched and neither the
    trailing check nor the synchronization is performed. *)
Theorem failed_segment_aborts_walk :
  forall (counted : bool) (BLOCK_SIZE : Z)
         (pre : list IndexSetSegInfo) (seg_info : IndexSetSegInfo)
         (post : list IndexSetSegInfo) (h h1 h2 : Host) (e : cudaError_t),
    for_segments (segment_dispatch counted (cuda_exec_async BLOCK_SIZE)) pre h
    = (Returned tt, h1) ->
    segment_dispatch counted (cuda_exec_async BLOCK_SIZE) seg_info h1
    = (Fatal e, h2) ->
    walk counted BLOCK_SIZE (pre ++ seg_info :: post) h = (Fatal e, h2)
    /\ (exists g b s calls,
          trace h2
          = trace h
            ++ flat_map (segment_events counted BLOCK_SIZE) pre
            ++ [FT_BEGIN; KernelLaunch g b s calls; PeekAtLastError e])
    /\ launches (trace h2) = (launches (trace h) + length pre + 1)%nat.
Proof.
  intros counted B pre seg_info post h h1 h2 e Hpre Hfail.
  assert (Hwalk : walk counted B (pre ++ seg_info :: post) h = (Fatal e, h2)).
  { rewrite walk_eq. unfold bind at 1. rewrite for_segments_app.
    unfold bind at 1. rewrite Hpre. cbn [for_segments].
    unfold bind at 1. now rewrite Hfail. }
  split; [exact Hwalk |].
  apply for_segments_returned in Hpre. destruct Hpre as [Htr [_ Hall]].
  rewrite segment_dispatch_shape in Hfail. cbn [dispatch] in Hfail.
  apply async_fatal in Hfail. destruct Hfail as [g [b [s [calls Htr2]]]].
  destruct (segments_one_launch_each counted B pre Hall) as [Hl _].
  split.
  - exists g, b, s, calls. now rewrite Htr2, Htr, <- app_assoc.
  - rewrite Htr2, Htr, !launches_app, Hl. reflexivity.
Qed.

(** C9.  For a walk, with or without index count, over an index set with
    zero segments: nothing is launched and the operation is not invoked,
    whatever the device reports, and the trailing status check is performed;
    on a device that reports no pending error and none at synchronization,
    the status check and the synchronization are performed, in this order
    and nothing else, and the walk returns. *)
Theorem walk_of_no_segment_checks_and_synchronizes :
  forall (counted : bool) (BLOCK_SIZE : Z) (h : Host),
    (exists tr,
       trace (snd (walk counted BLOCK_SIZE [] h))
       = trace h ++ PeekAtLastError (lastError h) :: tr
       /\ geometry (PeekAtLastError (lastError h) :: tr) = []
       /\ invocations (PeekAtLastError (lastError h) :: tr) = [])
    /\ (lastError h = cudaSuccess ->
        syncStatus dev (launches (trace h)) = cudaSuccess ->
        walk counted BLOCK_SIZE [] h
        = (Returned tt,
           mkHost cudaSuccess
             (trace h
              ++ [PeekAtLastError cudaSuccess;
                  DeviceSynchronize cudaSuccess]))).
Proof.
  intros counted B h.
  rewrite walk_eq. cbn [for_segments]. unfold bind, ret.
  rewrite trailing_check_eq. split.
  - destruct (is_cudaSuccess (lastError h));
      [cbv zeta; destruct (is_cudaSuccess (syncStatus dev _)) |];
      cbn [snd trace]; eexists; repeat split.
  - intros He Hs. rewrite He. cbn [is_cudaSuccess]. cbv zeta.
    now rewrite Hs.
Qed.

(** ** Index counts *)

Lemma segment_length_nonneg s : segment_ok s -> 0 <= segment_length s.
Proof.
  destruct s as [iseg | iseg]; cbn [segment_ok segment_length].
  - intros [_ [_ Hlen]]. unfold Index_sub.
    rewrite to_Index_type_small; [lia | unfold Index_type; lia].
  - lia.
Qed.

Lemma sum_lengths_nonneg segs :
  Forall segment_ok segs -> 0 <= sum_lengths (map segment_length segs).
Proof.
  induction 1 as [| s r Hs _ IH]; cbn; [lia |].
  pose proof (segment_length_nonneg s Hs). unfold sum_lengths in IH. lia.
Qed.

(** The counters of the index set are the sums of the lengths before each
    segment, and every segment ends below the total. *)
Lemma segments_from_counts acc segs :
  Forall segment_ok segs ->
  0 <= acc ->
  acc + sum_lengths (map segment_length segs) < 2 ^ (index_bits - 1) ->
  map getSegment (segments_from acc segs) = segs
  /\ map getIcount (segments_from acc segs)
     = prefix_sums acc (map segment_length segs)
  /\ Forall (fun seg_info =>
               0 <= getIcount seg_info
               /\ getIcount seg_info
                  + segment_length (getSegment seg_info)
                  < 2 ^ (index_bits - 1))
       (segments_from acc segs)
  /\ flat_map (fun seg_info =>
                 map (Z.add (getIcount seg_info))
                   (zrange (segment_length (getSegment seg_info))))
       (segments_from acc segs)
     = map (Z.add acc) (zrange (sum_lengths (map segment_length segs))).
Proof.
  intros Hok. revert acc.
  induction Hok as [| s r Hs Hr IH]; intros acc Hacc Hsum.
  - repeat split; constructor.
  - cbn [map sum_lengths fold_right] in Hsum.
    fold (sum_lengths (map segment_length r)) in Hsum.
    pose proof (segment_length_nonneg s Hs) as Hl.
    pose proof (sum_lengths_nonneg r Hr) as Hrest.
    assert (Hadd : Index_add acc (segment_length s) = acc + segment_length s).
    { apply to_Index_type_small. unfold Index_type. lia. }
    cbn [segments_from map prefix_sums flat_map getSegment getIcount].
    rewrite Hadd.
    destruct (IH (acc + segment_length s) ltac:(lia) ltac:(lia))
      as [Hsegs [Hcounts [Hbounds Hflat]]].
    rewrite Hsegs, Hcounts, Hflat. repeat split.
    + constructor; [cbn [getSegment getIcount]; lia | exact Hbounds].
    + cbn [sum_lengths fold_right].
      fold (sum_lengths (map segment_length r)).
      rewrite zrange_app, map_app, map_map by lia. f_equal.
      apply map_ext. intros i. lia.
Qed.

Lemma Permutation_flat_map_pointwise {A C} (f g : A -> list C) l :
  Forall (fun x => Permutation (f x) (g x)) l ->
  Permutation (flat_map f l) (flat_map g l).
Proof.
  induction 1 as [| a l Ha _ IH]; [constructor |].
  cbn. now apply Permutation_app.
Qed.

(** The launch the counted walk issues for a segment. *)
Lemma counted_segment_events B seg_info :
  fair dev ->
  segment_ok (getSegment seg_info) ->
  fits_launch (segment_length (getSegment seg_info)) B ->
  0 <= getIcount seg_info ->
  getIcount seg_info + segment_length (getSegment seg_info)
  < 2 ^ (index_bits - 1) ->
  exists calls,
    segment_events true B seg_info
    = [FT_BEGIN;
       KernelLaunch (ceil_div (segment_length (getSegment seg_info)) B) B
         cudaSuccess calls;
       PeekAtLastError cudaSuccess;
       FT_END]
    /\ Permutation calls (counted_calls seg_info).
Proof.
  intros Hfair Hok [HB [Hg Hfit]] Hic Hend.
  pose proof (segment_length_nonneg _ Hok) as Hlen.
  pose proof (ceil_div_bounds (segment_length (getSegment seg_info)) B
                ltac:(lia)) as Hc.
  pose proof (ceil_div_nonneg (segment_length (getSegment seg_info)) B
                ltac:(lia) Hlen) as Hc0.
  assert (Hlim : index_limit <= 2 ^ 32) by apply Z.le_min_l.
  rewrite (segment_events_shape true B seg_info
             (ceil_div (segment_length (getSegment seg_info)) B))
    by (apply gridSize_of_ceil; lia).
  rewrite !to_uint_small by lia.
  eexists. split; [reflexivity |].
  unfold counted_calls, segment_kernel, launch_calls.
  destruct seg_info as [[iseg | iseg] icount];
    cbn [getSegment getIcount segment_domain domain_kernel_Icount
         segment_length segment_index segment_ok] in *.
  - destruct Hok as [Hb [He Hd]].
    change (forall_Icount_cuda_kernel (getBegin iseg)
              (Index_sub (getEnd iseg) (getBegin iseg)) icount)
      with (guarded (Index_sub (getEnd iseg) (getBegin iseg))
              (fun ii => Call2 (Index_add ii icount)
                           (Index_add ii (getBegin iseg)))).
    rewrite guarded_launch by (try assumption; lia).
    apply Permutation_refl'. apply map_ext_in.
    intros ii Hii. apply in_zrange in Hii.
    assert (Hsub : Index_sub (getEnd iseg) (getBegin iseg)
                   = getEnd iseg - getBegin iseg).
    { apply to_Index_type_small. unfold Index_type. lia. }
    rewrite Hsub in *. unfold Index_add.
    rewrite !to_Index_type_small by (unfold Index_type in *; lia).
    f_equal; lia.
  - change (forall_Icount_cuda_kernel_idx (getIndex iseg) (getLength iseg)
              icount)
      with (guarded (getLength iseg)
              (fun ii => Call2 (Index_add ii icount) (getIndex iseg ii))).
    rewrite guarded_launch by (try assumption; lia).
    apply Permutation_refl'. apply map_ext_in.
    intros ii Hii. apply in_zrange in Hii. unfold Index_add.
    rewrite to_Index_type_small by (unfold Index_type; lia).
    f_equal; lia.
Qed.


Lemma map_flat_map {A B' C} (f : B' -> C) (g : A -> list B') l :
  map f (flat_map g l) = flat_map (fun x => map f (g x)) l.
Proof.
  induction l as [| a l IH]; [reflexivity |].
  cbn. now rewrite map_app, IH.
Qed.

Lemma launch_records_app tr1 tr2 :
  launch_records (tr1 ++ tr2) = launch_records tr1 ++ launch_records tr2.
Proof. apply flat_map_app. Qed.

Lemma counted_records B l :
  Forall (fun seg_info =>
            exists g b calls,
              segment_events true B seg_info
              = [FT_BEGIN; KernelLaunch g b cudaSuccess calls;
                 PeekAtLastError cudaSuccess; FT_END]
              /\ Permutation calls (counted_calls seg_info)) l ->
  Forall2 (fun seg_info calls => Permutation calls (counted_calls seg_info))
    l (launch_records (flat_map (segment_events true B) l))
  /\ Permutation (invocations (flat_map (segment_events true B) l))
       (flat_map counted_calls l).
Proof.
  induction 1 as [| s r [g [b [calls [Hev Hperm]]]] _ [IHr IHi]].
  - split; constructor.
  - cbn [flat_map]. rewrite launch_records_app, invocations_app, Hev. split.
    + cbn. now constructor.
    + cbn. rewrite app_nil_r. now apply Permutation_app.
Qed.

(** C2 (as amended).  For every index set built from segments of lengths
    [L0 .. Ln-1] that are non-negative [Index_type] values with a sum below
    [2^(index_bits-1)], and every group size for which the launch of each
    segment stays within the machine integers ([fits_launch]): the counter
    of segment [k] is [L0 + ... + L(k-1)]; a counted walk that returns has
    issued one launch per segment, in segment order, whose invocations are
    those of the items [ii] of the segment with global index [icount + ii],
    each once; and the global indices supplied by the whole walk are
    [0 .. (L0 + ... + Ln-1) - 1], each once. *)
Theorem counted_walk_supplies_global_indices :
  forall (BLOCK_SIZE : Z) (segs : list BaseSegment) (h h' : Host),
    fair dev ->
    Forall segment_ok segs ->
    Forall (fun s => fits_launch (segment_length s) BLOCK_SIZE) segs ->
    sum_lengths (map segment_length segs) < 2 ^ (index_bits - 1) ->
    forall_Icount_IndexSet BLOCK_SIZE (mkIndexSet segs) h = (Returned tt, h') ->
    map getIcount (mkIndexSet segs)
    = prefix_sums 0 (map segment_length segs)
    /\ exists tr,
         trace h' = trace h ++ tr
         /\ Forall2 (fun seg_info calls =>
                       Permutation calls (counted_calls seg_info))
              (mkIndexSet segs) (launch_records tr)
         /\ Permutation (map global_index (invocations tr))
              (map Some (zrange (sum_lengths (map segment_length segs)))).
Proof.
  intros B segs h h' Hfair Hok Hfits Hsum Hrun.
  destruct (segments_from_counts 0 segs Hok ltac:(lia) ltac:(lia))
    as [Hsegs [Hcounts [Hbounds Hflat]]].
  fold (mkIndexSet segs) in Hsegs, Hcounts, Hbounds, Hflat.
  split; [exact Hcounts |].
  change (forall_Icount_IndexSet B (mkIndexSet segs))
    with (walk true B (mkIndexSet segs)) in Hrun.
  apply walk_returned in Hrun. destruct Hrun as [Htr _].
  assert (Hall : Forall (fun seg_info =>
            exists g b calls,
              segment_events true B seg_info
              = [FT_BEGIN; KernelLaunch g b cudaSuccess calls;
                 PeekAtLastError cudaSuccess; FT_END]
              /\ Permutation calls (counted_calls seg_info))
            (mkIndexSet segs)).
  { rewrite <- Hsegs in Hok, Hfits. rewrite Forall_map in Hok, Hfits.
    rewrite Forall_forall in *. intros seg_info Hin.
    destruct (Hbounds seg_info Hin) as [Hic Hend].
    destruct (counted_segment_events B seg_info Hfair (Hok _ Hin)
                (Hfits _ Hin) Hic Hend) as [calls [Hev Hperm]].
    now exists (ceil_div (segment_length (getSegment seg_info)) B), B, calls. }
  apply counted_records in Hall. destruct Hall as [Hrec Hinv].
  eexists. split; [exact Htr |]. split.
  - rewrite launch_records_app. cbn. now rewrite app_nil_r.
  - rewrite invocations_app. cbn. rewrite app_nil_r.
    rewrite Hinv, map_flat_map.
    apply Permutation_refl'.
    transitivity
      (map Some
         (flat_map (fun seg_info =>
                      map (Z.add (getIcount seg_info))
                        (zrange (segment_length (getSegment seg_info))))
            (mkIndexSet segs))).
    + rewrite map_flat_map. apply flat_map_ext. intros seg_info.
      unfold counted_calls. now rewrite !map_map.
    + rewrite Hflat. f_equal. rewrite <- (map_id (zrange _)) at 2.
      now apply map_ext.
Qed.

(** * Further properties of the templates *)

(** ** Every domain shape, with and without index count *)

Lemma domain_length_nonneg d : domain_ok d -> 0 <= domain_length d.
Proof.
  destruct d as [b e | iseg | idx len | iseg]; cbn [domain_ok domain_length];
    try lia.
  - intros [_ [_ Hlen]]. unfold Index_sub.
    rewrite to_Index_type_small; [lia | unfold Index_type; lia].
  - intros [_ [_ Hlen]]. unfold Index_sub.
    rewrite to_Index_type_small; [lia | unfold Index_type; lia].
Qed.

(** A dispatch without index count that returns has invoked the body on
    the domain index of each item, once. *)
Lemma dispatch_covers p d h h' :
  fair dev ->
  domain_ok d ->
  fits_launch (domain_length d) (block_size p) ->
  forall_cuda p d h = (Returned tt, h') ->
  exists tr,
    trace h' = trace h ++ tr
    /\ geometry tr
       = [(ceil_div (domain_length d) (block_size p), block_size p)]
    /\ Permutation (invocations tr)
         (map (fun ii => Call1 (domain_item d ii))
            (zrange (domain_length d))).
Proof.
  intros Hfair Hok Hfit Hrun.
  pose proof (domain_length_nonneg d Hok) as Hlen.
  rewrite forall_cuda_shape in Hrun.
  assert (Hk : domain_kernel d
               = guarded (domain_length d)
                   (fun ii => match d with
                              | IndexRange begin _ => Call1 (Index_add begin ii)
                              | RangeSegmentObject iseg =>
                                  Call1 (Index_add (getBegin iseg) ii)
                              | IndirectionArray idx _ => Call1 (idx ii)
                              | ListSegmentObject iseg =>
                                  Call1 (getIndex iseg ii)
                              end)).
  { destruct d; reflexivity. }
  rewrite Hk in Hrun.
  apply dispatch_guarded in Hrun; [| assumption ..].
  destruct Hrun as [tr [Htr [Hgeo Hperm]]].
  exists tr. repeat split; try assumption.
  rewrite Hperm. apply Permutation_refl'. apply map_ext_in.
  intros ii Hii. apply in_zrange in Hii.
  destruct d as [b e | iseg | idx len | iseg];
    cbn [domain_ok domain_length domain_item] in *; try reflexivity.
  - destruct Hok as [Hb [He Hd]].
    assert (Hsub : Index_sub e b = e - b).
    { apply to_Index_type_small. unfold Index_type. lia. }
    rewrite Hsub in Hii. f_equal.
    apply to_Index_type_small. unfold Index_type in *. lia.
  - destruct Hok as [Hb [He Hd]].
    assert (Hsub : Index_sub (getEnd iseg) (getBegin iseg)
                   = getEnd iseg - getBegin iseg).
    { apply to_Index_type_small. unfold Index_type. lia. }
    rewrite Hsub in Hii. f_equal.
    apply to_Index_type_small. unfold Index_type in *. lia.
Qed.

(** A dispatch with index count that returns has invoked the body on the
    pair (count, domain index) of each item, once. *)
Lemma counted_dispatch_covers p d icount h h' :
  fair dev ->
  domain_ok d ->
  fits_launch (domain_length d) (block_size p) ->
  Index_type index_bits icount ->
  icount + domain_length d <= 2 ^ (index_bits - 1) ->
  forall_Icount_cuda p d icount h = (Returned tt, h') ->
  exists tr,
    trace h' = trace h ++ tr
    /\ geometry tr
       = [(ceil_div (domain_length d) (block_size p), block_size p)]
    /\ Permutation (invocations tr)
         (map (fun ii => Call2 (icount + ii) (domain_item d ii))
            (zrange (domain_length d))).
Proof.
  intros Hfair Hok Hfit Hic Hend Hrun.
  pose proof (domain_length_nonneg d Hok) as Hlen.
  rewrite forall_Icount_cuda_shape in Hrun.
  assert (Hk : domain_kernel_Icount d icount
               = guarded (domain_length d)
                   (fun ii =>
                      Call2 (Index_add ii icount)
                        match d with
                        | IndexRange begin _ => Index_add ii begin
                        | RangeSegmentObject iseg =>
                            Index_add ii (getBegin iseg)
                        | IndirectionArray idx _ => idx ii
                        | ListSegmentObject iseg => getIndex iseg ii
                        end)).
  { destruct d; reflexivity. }
  rewrite Hk in Hrun.
  apply dispatch_guarded in Hrun; [| assumption ..].
  destruct Hrun as [tr [Htr [Hgeo Hperm]]].
  exists tr. repeat split; try assumption.
  rewrite Hperm. apply Permutation_refl'. apply map_ext_in.
  intros ii Hii. apply in_zrange in Hii.
  assert (Hcount : Index_add ii icount = icount + ii).
  { unfold Index_add. rewrite to_Index_type_small by (unfold Index_type in *; lia).
    lia. }
  rewrite Hcount. f_equal.
  destruct d as [b e | iseg | idx len | iseg];
    cbn [domain_ok domain_length domain_item] in *; try reflexivity.
  - destruct Hok as [Hb [He Hd]].
    assert (Hsub : Index_sub e b = e - b).
    { apply to_Index_type_small. unfold Index_type. lia. }
    rewrite Hsub in Hii. unfold Index_add.
    rewrite to_Index_type_small by (unfold Index_type in *; lia). lia.
  - destruct Hok as [Hb [He Hd]].
    assert (Hsub : Index_sub (getEnd iseg) (getBegin iseg)
                   = getEnd iseg - getBegin iseg).
    { apply to_Index_type_small. unfold Index_type. lia. }
    rewrite Hsub in Hii. unfold Index_add.
    rewrite to_Index_type_small by (unfold Index_type in *; lia). lia.
Qed.

(** X1.  [forall_Icount] over an index range or a range segment, under
    either policy: within the machine integers, a dispatch that returns has
    issued one launch of [ceil (len / B)] groups and has invoked the body
    with the pair [(icount + ii, begin + ii)] once for each item [ii] of
    [0 .. len-1], and not otherwise. *)
Theorem forall_Icount_range_supplies_count_and_index :
  forall (p : exec_policy) (begin end_ icount : Z) (d : domain) (h h' : Host),
    fair dev ->
    Index_type index_bits begin ->
    Index_type index_bits end_ ->
    0 <= end_ - begin < 2 ^ (index_bits - 1) ->
    fits_launch (end_ - begin) (block_size p) ->
    Index_type index_bits icount ->
    icount + (end_ - begin) <= 2 ^ (index_bits - 1) ->
    d = IndexRange begin end_
    \/ d = RangeSegmentObject (mkRangeSegment begin end_) ->
    forall_Icount_cuda p d icount h = (Returned tt, h') ->
    exists tr,
      trace h' = trace h ++ tr
      /\ geometry tr
         = [(ceil_div (end_ - begin) (block_size p), block_size p)]
      /\ Permutation (invocations tr)
           (map (fun ii => Call2 (icount + ii) (begin + ii))
              (zrange (end_ - begin))).
Proof.
  intros p begin end_ icount d h h' Hfair Hb He Hlen Hfit Hic Hend Hd Hrun.
  assert (Hsub : Index_sub end_ begin = end_ - begin).
  { apply to_Index_type_small. unfold Index_type. lia. }
  assert (Hdl : domain_length d = end_ - begin).
  { destruct Hd as [-> | ->]; exact Hsub. }
  apply counted_dispatch_covers in Hrun; try assumption.
  - rewrite Hdl in Hrun.
    destruct Hd as [-> | ->]; exact Hrun.
  - destruct Hd as [-> | ->]; cbn [domain_ok getBegin getEnd];
      unfold Index_type in *; lia.
  - now rewrite Hdl.
  - now rewrite Hdl.
Qed.

(** X2.  [forall_Icount] over an indirection array or a list segment, under
    either policy: within the machine integers, a dispatch that returns has
    invoked the body with the pair [(icount + ii, idx[ii])] once for each
    position [ii] of [0 .. len-1], and not otherwise. *)
Theorem forall_Icount_array_supplies_count_and_index :
  forall (p : exec_policy) (idx : Z -> Z) (len icount : Z) (d : domain)
         (h h' : Host),
    fair dev ->
    0 <= len < 2 ^ (index_bits - 1) ->
    fits_launch len (block_size p) ->
    Index_type index_bits icount ->
    icount + len <= 2 ^ (index_bits - 1) ->
    d = IndirectionArray idx len
    \/ d = ListSegmentObject (mkListSegment idx len) ->
    forall_Icount_cuda p d icount h = (Returned tt, h') ->
    exists tr,
      trace h' = trace h ++ tr
      /\ geometry tr = [(ceil_div len (block_size p), block_size p)]
      /\ Permutation (invocations tr)
           (map (fun ii => Call2 (icount + ii) (idx ii)) (zrange len)).
Proof.
  intros p idx len icount d h h' Hfair Hlen Hfit Hic Hend Hd Hrun.
  apply counted_dispatch_covers in Hrun; try assumption;
    destruct Hd as [-> | ->]; assumption.
Qed.

(** X3.  [forall] over a range segment object, under either policy: within
    the machine integers, a dispatch that returns has invoked the body once
    for each index of [getBegin .. getEnd-1], and for no other. *)
Theorem forall_range_segment_visits_each_index_once :
  forall (p : exec_policy) (iseg : RangeSegment) (h h' : Host),
    fair dev ->
    Index_type index_bits (getBegin iseg) ->
    Index_type index_bits (getEnd iseg) ->
    0 <= getEnd iseg - getBegin iseg < 2 ^ (index_bits - 1) ->
    fits_launch (getEnd iseg - getBegin iseg) (block_size p) ->
    forall_cuda p (RangeSegmentObject iseg) h = (Returned tt, h') ->
    exists tr,
      trace h' = trace h ++ tr
      /\ geometry tr
         = [(ceil_div (getEnd iseg - getBegin iseg) (block_size p),
             block_size p)]
      /\ Permutation (invocations tr)
           (map (fun ii => Call1 (getBegin iseg + ii))
              (zrange (getEnd iseg - getBegin iseg))).
Proof.
  intros p iseg h h' Hfair Hb He Hlen Hfit Hrun.
  assert (Hsub : Index_sub (getEnd iseg) (getBegin iseg)
                 = getEnd iseg - getBegin iseg).
  { apply to_Index_type_small. unfold Index_type. lia. }
  apply dispatch_covers in Hrun; try assumption.
  - cbn [domain_length domain_item] in Hrun. now rewrite Hsub in Hrun.
  - cbn [domain_ok]. unfold Index_type in *. lia.
  - cbn [domain_length]. now rewrite Hsub.
Qed.

(** X4.  [forall] over a list segment object, under either policy: within
    the machine integers, a dispatch that returns has invoked the body with
    [getIndex()[ii]] once for each position [ii] of [0 .. getLength()-1],
    and not otherwise. *)
Theorem forall_list_segment_visits_each_position_once :
  forall (p : exec_policy) (iseg : ListSegment) (h h' : Host),
    fair dev ->
    0 <= getLength iseg < 2 ^ (index_bits - 1) ->
    fits_launch (getLength iseg) (block_size p) ->
    forall_cuda p (ListSegmentObject iseg) h = (Returned tt, h') ->
    exists tr,
      trace h' = trace h ++ tr
      /\ geometry tr
         = [(ceil_div (getLength iseg) (block_size p), block_size p)]
      /\ Permutation (invocations tr)
           (map (fun ii => Call1 (getIndex iseg ii))
              (zrange (getLength iseg))).
Proof.
  intros p iseg h h' Hfair Hlen Hfit Hrun.
  now apply dispatch_covers in Hrun.
Qed.

(** X5.  The templates over segment objects only project the segment: from
    every host state and whatever the outcome, they behave as the templates
    over the projected bounds, or pointer and length, under the same
    policy. *)
Theorem segment_objects_dispatch_as_their_projections :
  forall (p : exec_policy) (rseg : RangeSegment) (lseg : ListSegment)
         (icount : Z) (h : Host),
    forall_cuda p (RangeSegmentObject rseg) h
    = forall_cuda p (IndexRange (getBegin rseg) (getEnd rseg)) h
    /\ forall_Icount_cuda p (RangeSegmentObject rseg) icount h
       = forall_Icount_cuda p (IndexRange (getBegin rseg) (getEnd rseg))
           icount h
    /\ forall_cuda p (ListSegmentObject lseg) h
       = forall_cuda p (IndirectionArray (getIndex lseg) (getLength lseg)) h
    /\ forall_Icount_cuda p (ListSegmentObject lseg) icount h
       = forall_Icount_cuda p
           (IndirectionArray (getIndex lseg) (getLength lseg)) icount h.
Proof. intros p rseg lseg icount h. destruct p; repeat split. Qed.

(** X6.  For every domain shape, with and without index count, and every
    group size, from every host state: the synchronous template issues the
    launch of the asynchronous one, with the same geometry and the same
    invocations, and differs from it by one device synchronization whose
    status it checks. *)
Theorem every_sync_template_differs_by_synchronization :
  forall (BLOCK_SIZE : Z) (d : domain) (icount : Z) (h : Host),
    differ_by_synchronization h
      (forall_cuda (cuda_exec_async BLOCK_SIZE) d h)
      (forall_cuda (cuda_exec BLOCK_SIZE) d h)
    /\ differ_by_synchronization h
         (forall_Icount_cuda (cuda_exec_async BLOCK_SIZE) d icount h)
         (forall_Icount_cuda (cuda_exec BLOCK_SIZE) d icount h).
Proof.
  intros B d icount h. split.
  - rewrite !forall_cuda_shape. cbn [dispatch].
    pose proof (dispatch_sync_vs_async (domain_kernel d) (domain_length d)
                  B h) as H.
    destruct (dispatch_async _ _ B h) as [oa ha].
    destruct (dispatch_sync _ _ B h) as [os hs]. exact H.
  - rewrite !forall_Icount_cuda_shape. cbn [dispatch].
    pose proof (dispatch_sync_vs_async (domain_kernel_Icount d icount)
                  (domain_length d) B h) as H.
    destruct (dispatch_async _ _ B h) as [oa ha].
    destruct (dispatch_sync _ _ B h) as [os hs]. exact H.
Qed.

(** ** Index count against no index count *)

Lemma launches_forget tr :
  launches (map forget_count_event tr) = launches tr.
Proof.
  unfold launches. induction tr as [| ev tr IH]; [reflexivity |].
  destruct ev; cbn in *; now rewrite ?IH.
Qed.

Lemma invocations_forget tr :
  invocations (map forget_count_event tr) = map forget_count (invocations tr).
Proof.
  unfold invocations. induction tr as [| ev tr IH]; [reflexivity |].
  cbn [map flat_map]. rewrite map_app, IH. now destruct ev.
Qed.

Lemma geometry_forget tr :
  geometry (map forget_count_event tr) = geometry tr.
Proof.
  unfold geometry. induction tr as [| ev tr IH]; [reflexivity |].
  cbn [map flat_map]. rewrite IH. now destruct ev.
Qed.

Lemma kernel_forget d icount t :
  map forget_count (domain_kernel_Icount d icount t) = domain_kernel d t.
Proof.
  destruct d as [b e | iseg | idx len | iseg];
    cbn [domain_kernel_Icount domain_kernel];
    unfold forall_Icount_cuda_kernel, forall_cuda_kernel,
      forall_Icount_cuda_kernel_idx, forall_cuda_kernel_idx, Index_add;
    cbv zeta;
    match goal with |- context [?x <? ?y] => destruct (x <? y) end;
    cbn [map forget_count]; try reflexivity;
    now rewrite Z.add_comm.
Qed.

Lemma launch_calls_forget k1 k2 g b :
  (forall t, map forget_count (k2 t) = k1 t) ->
  map forget_count (launch_calls k2 g b) = launch_calls k1 g b.
Proof.
  intros Hk. unfold launch_calls. rewrite map_flat_map.
  now apply flat_map_ext.
Qed.

(** Running a template without index count on the uncounted view of a state
    is running its counterpart with index count and forgetting the
    counts. *)
Lemma dispatch_view p k1 k2 len h :
  (forall t, map forget_count (k2 t) = k1 t) ->
  dispatch p k1 len (uncounted_view h) = uncounted_result (dispatch p k2 len h).
Proof.
  intros Hk. unfold uncounted_result.
  destruct p as [B | B]; cbn [dispatch].
  - rewrite !dispatch_sync_eq. cbn [uncounted_view lastError trace].
    rewrite launches_forget.
    destruct (gridSize_of len B) as [gridSize |]; [| reflexivity].
    cbv zeta. rewrite <- (launch_calls_forget k1 k2 _ _ Hk).
    destruct (is_cudaSuccess (launchStatus dev _ _ _));
      [destruct (is_cudaSuccess (lastError h));
       [destruct (is_cudaSuccess (syncStatus dev _)) |] |];
      cbn [fst snd]; unfold uncounted_view; cbn [lastError trace];
      now rewrite !map_app.
  - rewrite !dispatch_async_eq. cbn [uncounted_view lastError trace].
    rewrite launches_forget.
    destruct (gridSize_of len B) as [gridSize |]; [| reflexivity].
    cbv zeta. rewrite <- (launch_calls_forget k1 k2 _ _ Hk).
    destruct (is_cudaSuccess (launchStatus dev _ _ _));
      [destruct (is_cudaSuccess (lastError h)) |];
      cbn [fst snd]; unfold uncounted_view; cbn [lastError trace];
      now rewrite !map_app.
Qed.

(** X7.  For every domain shape, policy, index count and host state:
    [forall_Icount] does what [forall] does and supplies a count besides.
    The outcome, the events, the launch geometry and, once the counts are
    forgotten, the invocations of [forall_Icount] are those of [forall] run
    on the same state with its counts forgotten; this holds outside the
    machine-integer limits too. *)
Theorem forall_Icount_is_forall_with_a_count :
  forall (p : exec_policy) (d : domain) (icount : Z) (h : Host),
    forall_cuda p d (uncounted_view h)
    = uncounted_result (forall_Icount_cuda p d icount h)
    /\ geometry (trace (snd (forall_cuda p d (uncounted_view h))))
       = geometry (trace (snd (forall_Icount_cuda p d icount h)))
    /\ invocations (trace (snd (forall_cuda p d (uncounted_view h))))
       = map forget_count
           (invocations (trace (snd (forall_Icount_cuda p d icount h)))).
Proof.
  intros p d icount h.
  assert (Hv : forall_cuda p d (uncounted_view h)
               = uncounted_result (forall_Icount_cuda p d icount h)).
  { rewrite forall_cuda_shape, forall_Icount_cuda_shape.
    apply dispatch_view. apply kernel_forget. }
  split; [exact Hv |]. rewrite Hv. unfold uncounted_result, uncounted_view.
  cbn [snd trace]. split; [apply geometry_forget | apply invocations_forget].
Qed.

(** ** Failing dispatches *)

Lemma device_events_app tr1 tr2 :
  device_events (tr1 ++ tr2) = device_events tr1 ++ device_events tr2.
Proof. apply filter_app. Qed.

(** X8.  For every template: when the device refuses the launch with status
    [s], the dispatch ends with the fatal error [s] at the status check that
    follows the launch: the device operations it has added are the refused
    launch and that check.  The body is not invoked, no synchronization is
    made, and [s] stays the last error. *)
Theorem refused_launch_is_fatal :
  forall (p : exec_policy) (d : domain) (icount : Z) (h : Host)
         (gridSize : Z) (s : cudaError_t) (r : outcome unit * Host),
    gridSize_of (domain_length d) (block_size p) = Some gridSize ->
    launchStatus dev (launches (trace h))
      (to_uint gridSize) (to_uint (block_size p)) = s ->
    s <> cudaSuccess ->
    r = forall_cuda p d h \/ r = forall_Icount_cuda p d icount h ->
    fst r = Fatal s
    /\ lastError (snd r) = s
    /\ device_events (trace (snd r))
       = device_events (trace h)
         ++ [KernelLaunch (to_uint gridSize) (to_uint (block_size p)) s [];
             PeekAtLastError s]
    /\ invocations (trace (snd r)) = invocations (trace h).
Proof.
  intros p d icount h gridSize s r Hg Hs Hne Hr.
  assert (Hf : is_cudaSuccess s = false).
  { destruct s; [contradiction | reflexivity ..]. }
  assert (Hk : exists k, r = dispatch p k (domain_length d) h).
  { destruct Hr as [-> | ->].
    - rewrite forall_cuda_shape. now eexists.
    - rewrite forall_Icount_cuda_shape. now eexists. }
  destruct Hk as [k ->].
  destruct p as [B | B]; cbn [dispatch block_size] in *;
    rewrite ?dispatch_sync_eq, ?dispatch_async_eq, Hg; cbv zeta;
    rewrite Hs, Hf; cbn [fst snd lastError trace];
    rewrite device_events_app, invocations_app; cbn;
    now rewrite app_nil_r.
Qed.

(** X9.  A kernel failure reported at synchronization is seen by the
    synchronous template only.  When the device takes the launch, no error
    is pending and the synchronization reports [e], the asynchronous
    template returns, while the synchronous one ends with the fatal error
    [e]: the device operations it has added are the launch, the status
    check that saw no error and the synchronization that reported [e]. *)
Theorem execution_error_is_seen_by_the_synchronous_template :
  forall (BLOCK_SIZE : Z) (d : domain) (h : Host) (gridSize : Z)
         (e : cudaError_t),
    gridSize_of (domain_length d) BLOCK_SIZE = Some gridSize ->
    launchStatus dev (launches (trace h))
      (to_uint gridSize) (to_uint BLOCK_SIZE) = cudaSuccess ->
    lastError h = cudaSuccess ->
    syncStatus dev (S (launches (trace h))) = e ->
    e <> cudaSuccess ->
    forall_cuda (cuda_exec_async BLOCK_SIZE) d h
    = (Returned tt,
       mkHost cudaSuccess
         (trace h
          ++ [FT_BEGIN;
              KernelLaunch (to_uint gridSize) (to_uint BLOCK_SIZE) cudaSuccess
                (launch_calls (domain_kernel d)
                   (to_uint gridSize) (to_uint BLOCK_SIZE));
              PeekAtLastError cudaSuccess;
              FT_END]))
    /\ fst (forall_cuda (cuda_exec BLOCK_SIZE) d h) = Fatal e
    /\ lastError (snd (forall_cuda (cuda_exec BLOCK_SIZE) d h)) = e
    /\ exists calls,
         device_events (trace (snd (forall_cuda (cuda_exec BLOCK_SIZE) d h)))
         = device_events (trace h)
           ++ [KernelLaunch (to_uint gridSize) (to_uint BLOCK_SIZE)
                 cudaSuccess calls;
               PeekAtLastError cudaSuccess;
               DeviceSynchronize e].
Proof.
  intros B d h gridSize e Hg Hl He Hs Hne.
  assert (Hf : is_cudaSuccess e = false).
  { destruct e; [contradiction | reflexivity ..]. }
  rewrite !forall_cuda_shape. cbn [dispatch].
  rewrite dispatch_sync_eq, dispatch_async_eq, Hg. cbv zeta.
  rewrite Hl, He, Hs, Hf. cbn [is_cudaSuccess fst snd lastError trace].
  repeat split. eexists.
  rewrite device_events_app. reflexivity.
Qed.

(** X10.  For every template: a dispatch returns only if no device error
    was pending when it was entered, and leaves none pending.  It has then
    issued exactly one launch, between the entry and the exit of the
    fault-tolerance scope, followed by one status check and, under the
    synchronous policy only, by one device synchronization. *)
Theorem returning_dispatch_brackets_one_launch :
  forall (p : exec_policy) (d : domain) (icount : Z) (h h' : Host),
    forall_cuda p d h = (Returned tt, h')
    \/ forall_Icount_cuda p d icount h = (Returned tt, h') ->
    lastError h = cudaSuccess
    /\ lastError h' = cudaSuccess
    /\ launches (trace h') = S (launches (trace h))
    /\ exists g calls,
         trace h'
         = trace h
           ++ [FT_BEGIN;
               KernelLaunch g (to_uint (block_size p)) cudaSuccess calls;
               PeekAtLastError cudaSuccess]
           ++ (if synchronous p then [DeviceSynchronize cudaSuccess] else [])
           ++ [FT_END].
Proof.
  intros p d icount h h' Hrun.
  assert (Hret : exists k,
            dispatch p k (domain_length d) h = (Returned tt, h')).
  { destruct Hrun as [Hrun | Hrun].
    - rewrite forall_cuda_shape in Hrun. eexists. exact Hrun.
    - rewrite forall_Icount_cuda_shape in Hrun. eexists. exact Hrun. }
  destruct Hret as [k Hk]. apply dispatch_returned in Hk.
  destruct Hk as [gridSize [_ [He [He' [_ Htr]]]]].
  repeat split; try assumption.
  - rewrite Htr, !launches_app.
    destruct (synchronous p); cbn; lia.
  - do 2 eexists. exact Htr.
Qed.

(** ** Launch geometry and work items *)

Lemma gridSize_of_wrapped len B :
  B <> 0 -> gridSize_of len B = Some ((len + B - 1) mod 2 ^ 64 / B).
Proof.
  intros HB. unfold gridSize_of, size_t_div, size_t_sub, size_t_add, to_size_t.
  destruct (Z.eqb_spec B 0) as [H0 | _]; [contradiction |].
  now rewrite Zplus_mod_idemp_l, Zminus_mod_idemp_l.
Qed.

(** X11.  The geometry [(len + BLOCK_SIZE - 1) / BLOCK_SIZE] is the least
    number of groups that covers the domain: for [len >= 0], [B >= 1] and
    no wrap-around of the [size_t] sum, the [g * B] work items launched are
    at least [len], fewer than [B] of them are idle, no smaller number of
    groups covers [len] items, [g] is [len / B] when [B] divides [len], and
    [g] is 0 only for the empty domain. *)
Theorem geometry_is_the_least_cover :
  forall (len B : Z),
    0 <= len ->
    1 <= B ->
    len + B - 1 < 2 ^ 64 ->
    exists g,
      gridSize_of len B = Some g
      /\ len <= g * B < len + B
      /\ (forall g', len <= g' * B -> g <= g')
      /\ (len mod B = 0 -> g = len / B)
      /\ (g = 0 <-> len = 0).
Proof.
  intros len B Hlen HB Hfit.
  exists (ceil_div len B).
  pose proof (ceil_div_bounds len B ltac:(lia)) as Hc.
  split; [now apply gridSize_of_ceil |].
  split; [lia |]. split; [| split].
  - intros g' Hg'. nia.
  - intros Hmod. apply ceil_div_unique; [lia |].
    pose proof (Z.div_mod len B ltac:(lia)) as Hdm. rewrite Hmod in Hdm.
    nia.
  - split; intros H0; [rewrite H0 in Hc; lia |].
    subst len. apply ceil_div_unique; lia.
Qed.

Lemma length_grid_threads g b :
  length (grid_threads g b) = (Z.to_nat g * Z.to_nat b)%nat.
Proof.
  unfold grid_threads.
  rewrite (flat_map_constant_length (c := Z.to_nat b)).
  - now rewrite length_zrange.
  - intros x _. now rewrite length_map, length_zrange.
Qed.

Lemma length_flat_map_le {A C} (k : A -> list C) l :
  (forall x, (length (k x) <= 1)%nat) ->
  (length (flat_map k l) <= length l)%nat.
Proof.
  intros Hk. induction l as [| a l IH]; [constructor |].
  cbn [flat_map]. rewrite length_app. cbn [length].
  specialize (Hk a). lia.
Qed.

Lemma length_launch_calls k g b :
  fair dev ->
  (forall t, (length (k t) <= 1)%nat) ->
  0 <= g -> 0 <= b ->
  Z.of_nat (length (launch_calls k g b)) <= g * b.
Proof.
  intros Hfair Hk Hg Hb. unfold launch_calls.
  pose proof (length_flat_map_le k (schedule dev (grid_threads g b)) Hk)
    as Hle.
  rewrite (Permutation_length (Hfair _)), length_grid_threads in Hle.
  nia.
Qed.

Lemma kernels_invoke_at_most_once d icount t :
  (length (domain_kernel d t) <= 1)%nat
  /\ (length (domain_kernel_Icount d icount t) <= 1)%nat.
Proof.
  destruct d as [b e | iseg | idx len | iseg];
    cbn [domain_kernel_Icount domain_kernel];
    unfold forall_Icount_cuda_kernel, forall_cuda_kernel,
      forall_Icount_cuda_kernel_idx, forall_cuda_kernel_idx;
    cbv zeta;
    match goal with |- context [?x <? ?y] => destruct (x <? y) end;
    cbn; lia.
Qed.

Lemma dispatch_within_work_items p k len h :
  fair dev ->
  (forall t, (length (k t) <= 1)%nat) ->
  exists tr,
    trace (snd (dispatch p k len h)) = trace h ++ tr
    /\ Z.of_nat (length (invocations tr)) <= work_items tr.
Proof.
  intros Hfair Hk.
  assert (Hu : forall z, 0 <= to_uint z).
  { intros z. unfold to_uint. apply Z.mod_pos_bound. lia. }
  assert (Hone : forall gs B s calls pre post,
            invocations pre = [] -> geometry pre = [] ->
            invocations post = [] -> geometry post = [] ->
            Z.of_nat (length calls) <= to_uint gs * to_uint B ->
            Z.of_nat (length (invocations
                                (pre ++ [KernelLaunch (to_uint gs) (to_uint B)
                                           s calls] ++ post)))
            <= work_items (pre ++ [KernelLaunch (to_uint gs) (to_uint B)
                                     s calls] ++ post)).
  { intros gs B s calls pre post Hi1 Hg1 Hi2 Hg2 Hc. unfold work_items.
    rewrite !invocations_app, !geometry_app, Hi1, Hg1, Hi2, Hg2.
    cbn [invocations geometry flat_map event_calls app map sum_lengths
           fold_right fst snd].
    rewrite !app_nil_r. lia. }
  assert (Hnil : Z.of_nat (length (@nil call)) <= 0) by (cbn; lia).
  destruct p as [B | B]; cbn [dispatch].
  - rewrite dispatch_sync_eq.
    destruct (gridSize_of len B) as [gs |].
    2:{ exists []. cbn. rewrite app_nil_r. split; [reflexivity | lia]. }
    cbv zeta.
    pose proof (length_launch_calls k (to_uint gs) (to_uint B) Hfair Hk
                  (Hu gs) (Hu B)) as Hc.
    destruct (is_cudaSuccess (launchStatus dev _ _ _));
      [destruct (is_cudaSuccess (lastError h));
       [destruct (is_cudaSuccess (syncStatus dev _)) |] |];
      cbn [snd trace]; eexists; (split; [reflexivity |]).
    + apply (Hone gs B _ _ [FT_BEGIN]
               [PeekAtLastError _; DeviceSynchronize _; FT_END]);
        try reflexivity; exact Hc.
    + apply (Hone gs B _ _ [FT_BEGIN]
               [PeekAtLastError _; DeviceSynchronize _]);
        try reflexivity; exact Hc.
    + apply (Hone gs B _ _ [FT_BEGIN] [PeekAtLastError _]);
        try reflexivity; exact Hc.
    + apply (Hone gs B _ _ [FT_BEGIN] [PeekAtLastError _]);
        try reflexivity. cbn. pose proof (Hu gs). pose proof (Hu B). nia.
  - rewrite dispatch_async_eq.
    destruct (gridSize_of len B) as [gs |].
    2:{ exists []. cbn. rewrite app_nil_r. split; [reflexivity | lia]. }
    cbv zeta.
    pose proof (length_launch_calls k (to_uint gs) (to_uint B) Hfair Hk
                  (Hu gs) (Hu B)) as Hc.
    destruct (is_cudaSuccess (launchStatus dev _ _ _));
      [destruct (is_cudaSuccess (lastError h)) |];
      cbn [snd trace]; eexists; (split; [reflexivity |]).
    + apply (Hone gs B _ _ [FT_BEGIN] [PeekAtLastError _; FT_END]);
        try reflexivity; exact Hc.
    + apply (Hone gs B _ _ [FT_BEGIN] [PeekAtLastError _]);
        try reflexivity; exact Hc.
    + apply (Hone gs B _ _ [FT_BEGIN] [PeekAtLastError _]);
        try reflexivity. cbn. pose proof (Hu gs). pose proof (Hu B). nia.
Qed.

(** X12.  For every template, group size and host state, whatever the
    outcome and outside the machine-integer limits too: on a device that
    runs each thread of a grid once, a dispatch never invokes the body more
    often than the number of work items of the launch it issues, each work
    item invoking it at most once; when nothing is launched, nothing is
    invoked. *)
Theorem invocations_never_exceed_work_items :
  forall (p : exec_policy) (d : domain) (icount : Z) (h : Host),
    fair dev ->
    (exists tr,
       trace (snd (forall_cuda p d h)) = trace h ++ tr
       /\ Z.of_nat (length (invocations tr)) <= work_items tr)
    /\ (exists tr,
         trace (snd (forall_Icount_cuda p d icount h)) = trace h ++ tr
         /\ Z.of_nat (length (invocations tr)) <= work_items tr).
Proof.
  intros p d icount h Hfair. split.
  - rewrite forall_cuda_shape. apply dispatch_within_work_items; [exact Hfair |].
    intros t. apply (kernels_invoke_at_most_once d 0 t).
  - rewrite forall_Icount_cuda_shape.
    apply dispatch_within_work_items; [exact Hfair |].
    intros t. apply (kernels_invoke_at_most_once d icount t).
Qed.

(** ** Lengths that are not positive *)

Lemma dispatch_zero_groups p k len h :
  fair dev ->
  gridSize_of len (block_size p) = Some 0 ->
  empty_dispatch p h (dispatch p k len h).
Proof.
  intros Hfair Hg. unfold empty_dispatch.
  destruct p as [B | B]; cbn [dispatch block_size synchronous] in *.
  - rewrite dispatch_sync_eq, Hg.
    change (to_uint 0) with 0. cbv zeta.
    rewrite launch_calls_empty by exact Hfair.
    destruct (launchStatus dev _ _ _) eqn:Hl; cbn [is_cudaSuccess].
    2-4: eexists; cbn [fst snd trace];
      repeat split; try reflexivity; try discriminate;
      intros [Hk _]; discriminate Hk.
    destruct (lastError h) eqn:He; cbn [is_cudaSuccess].
    2-4: eexists; cbn [fst snd trace];
      repeat split; try reflexivity; try discriminate;
      intros [_ [Hk _]]; discriminate Hk.
    destruct (syncStatus dev _) eqn:Hs; cbn [is_cudaSuccess].
    2-4: eexists; cbn [fst snd trace];
      repeat split; try reflexivity; try discriminate;
      intros [_ [_ Hk]]; specialize (Hk eq_refl); discriminate Hk.
    eexists; cbn [fst snd trace]; repeat split; try reflexivity;
      discriminate.
  - rewrite dispatch_async_eq, Hg.
    change (to_uint 0) with 0. cbv zeta.
    rewrite launch_calls_empty by exact Hfair.
    destruct (launchStatus dev _ _ _) eqn:Hl; cbn [is_cudaSuccess].
    2-4: eexists; cbn [fst snd trace];
      repeat split; try reflexivity; try discriminate;
      intros [Hk _]; discriminate Hk.
    destruct (lastError h) eqn:He; cbn [is_cudaSuccess].
    2-4: eexists; cbn [fst snd trace];
      repeat split; try reflexivity; try discriminate;
      intros [_ [Hk _]]; discriminate Hk.
    eexists; cbn [fst snd trace]; repeat split; try reflexivity;
      discriminate.
Qed.

(** X13.  A length that is negative by less than one group is dispatched
    as the empty domain is.  For every template and every group size
    [1 <= B < 2^64], when the length [len] the template computes satisfies
    [-B < len <= 0] (a range whose end lies less than [B] before its begin,
    for instance), the [size_t] sum [len + B - 1] wraps back below [B]: one
    launch of 0 groups is issued and the body is not invoked. *)
Theorem short_negative_length_launches_zero_groups :
  forall (p : exec_policy) (d : domain) (icount : Z) (h : Host),
    fair dev ->
    1 <= block_size p < 2 ^ 64 ->
    - block_size p < domain_length d <= 0 ->
    gridSize_of (domain_length d) (block_size p) = Some 0
    /\ empty_dispatch p h (forall_cuda p d h)
    /\ empty_dispatch p h (forall_Icount_cuda p d icount h).
Proof.
  intros p d icount h Hfair HB Hlen.
  assert (Hg : gridSize_of (domain_length d) (block_size p) = Some 0).
  { rewrite gridSize_of_wrapped by lia.
    rewrite Z.mod_small by lia. now rewrite Z.div_small by lia. }
  split; [exact Hg |]. split.
  - rewrite forall_cuda_shape. now apply dispatch_zero_groups.
  - rewrite forall_Icount_cuda_shape. now apply dispatch_zero_groups.
Qed.

(** ** Dispatches in sequence *)

(** X14.  Dispatching the ranges [a, b) and [b, c) one after the other
    visits the indices that one dispatch over [a, c) visits: within the
    machine integers, when the sequence returns and the single dispatch
    returns, from the same host state, their invocations are the same up to
    order. *)
Theorem split_range_visits_the_same_indices :
  forall (p : exec_policy) (a b c : Z) (h h2 h' : Host),
    fair dev ->
    Index_type index_bits a ->
    Index_type index_bits c ->
    a <= b <= c ->
    c - a < 2 ^ (index_bits - 1) ->
    fits_launch (b - a) (block_size p) ->
    fits_launch (c - b) (block_size p) ->
    fits_launch (c - a) (block_size p) ->
    (forall_cuda p (IndexRange a b) ;; forall_cuda p (IndexRange b c)) h
    = (Returned tt, h2) ->
    forall_cuda p (IndexRange a c) h = (Returned tt, h') ->
    exists tr2 tr',
      trace h2 = trace h ++ tr2
      /\ trace h' = trace h ++ tr'
      /\ Permutation (invocations tr2) (invocations tr')
      /\ length (geometry tr2) = 2%nat
      /\ length (geometry tr') = 1%nat.
Proof.
  intros p a b c h h2 h' Hfair Ha Hc Hab Hlen Hf1 Hf2 Hf Hseq Hone.
  unfold Index_type in Ha, Hc.
  assert (Hsub : forall x y, a <= x -> x <= y -> y <= c ->
                             Index_sub y x = y - x).
  { intros x y Hx Hxy Hy. apply to_Index_type_small. unfold Index_type. lia. }
  unfold bind in Hseq.
  destruct (forall_cuda p (IndexRange a b) h) as [[[] | e |] h1] eqn:H1;
    try discriminate.
  apply dispatch_covers in H1; try assumption.
  2:{ cbn [domain_ok]. unfold Index_type. lia. }
  2:{ cbn [domain_length]. rewrite Hsub by lia. exact Hf1. }
  apply dispatch_covers in Hseq; try assumption.
  2:{ cbn [domain_ok]. unfold Index_type. lia. }
  2:{ cbn [domain_length]. rewrite Hsub by lia. exact Hf2. }
  apply dispatch_covers in Hone; try assumption.
  2:{ cbn [domain_ok]. unfold Index_type. lia. }
  2:{ cbn [domain_length]. rewrite Hsub by lia. exact Hf. }
  cbn [domain_length domain_item] in H1, Hseq, Hone.
  rewrite Hsub in H1, Hseq, Hone by lia.
  destruct H1 as [tr1 [Ht1 [Hg1 Hp1]]].
  destruct Hseq as [tr2 [Ht2 [Hg2 Hp2]]].
  destruct Hone as [tr' [Ht' [Hg' Hp']]].
  exists (tr1 ++ tr2), tr'. repeat split.
  - now rewrite Ht2, Ht1, <- app_assoc.
  - exact Ht'.
  - rewrite invocations_app, Hp1, Hp2, Hp'.
    replace (c - a) with ((b - a) + (c - b)) by lia.
    rewrite zrange_app, map_app, map_map by lia.
    apply Permutation_app; [apply Permutation_refl |].
    apply Permutation_refl'. apply map_ext. intros ii. f_equal. lia.
  - now rewrite geometry_app, Hg1, Hg2.
  - now rewrite Hg'.
Qed.

(** X15.  An error pending when a dispatch is entered fails it, after the
    launch has been issued.  For every template: when the device error [e]
    is pending and the device takes the launch, the device operations the
    dispatch adds are that launch and the status check that follows it,
    which ends the dispatch with the fatal error [e]; no synchronization is
    made, and [e] stays the last error. *)
Theorem pending_error_fails_the_dispatch_after_its_launch :
  forall (p : exec_policy) (d : domain) (icount : Z) (h : Host)
         (gridSize : Z) (e : cudaError_t) (r : outcome unit * Host),
    gridSize_of (domain_length d) (block_size p) = Some gridSize ->
    launchStatus dev (launches (trace h))
      (to_uint gridSize) (to_uint (block_size p)) = cudaSuccess ->
    lastError h = e ->
    e <> cudaSuccess ->
    r = forall_cuda p d h \/ r = forall_Icount_cuda p d icount h ->
    fst r = Fatal e
    /\ lastError (snd r) = e
    /\ exists calls,
         device_events (trace (snd r))
         = device_events (trace h)
           ++ [KernelLaunch (to_uint gridSize) (to_uint (block_size p))
                 cudaSuccess calls;
               PeekAtLastError e].
Proof.
  intros p d icount h gridSize e r Hg Hl He Hne Hr.
  assert (Hf : is_cudaSuccess e = false).
  { destruct e; [contradiction | reflexivity ..]. }
  assert (Hk : exists k, r = dispatch p k (domain_length d) h).
  { destruct Hr as [-> | ->].
    - rewrite forall_cuda_shape. now eexists.
    - rewrite forall_Icount_cuda_shape. now eexists. }
  destruct Hk as [k ->].
  destruct p as [B | B]; cbn [dispatch block_size] in *;
    rewrite ?dispatch_sync_eq, ?dispatch_async_eq, Hg; cbv zeta;
    rewrite Hl, He, Hf; cbn [is_cudaSuccess fst snd lastError trace];
    repeat split; eexists; rewrite device_events_app; reflexivity.
Qed.

(** ** More on walks over index sets *)

(** The launch the walk without index count issues for a segment. *)
Lemma uncounted_segment_events B seg_info :
  fair dev ->
  segment_ok (getSegment seg_info) ->
  fits_launch (segment_length (getSegment seg_info)) B ->
  exists calls,
    segment_events false B seg_info
    = [FT_BEGIN;
       KernelLaunch (ceil_div (segment_length (getSegment seg_info)) B) B
         cudaSuccess calls;
       PeekAtLastError cudaSuccess;
       FT_END]
    /\ Permutation calls
         (map (fun ii => Call1 (segment_index (getSegment seg_info) ii))
            (zrange (segment_length (getSegment seg_info)))).
Proof.
  intros Hfair Hok [HB [Hg Hfit]].
  pose proof (segment_length_nonneg _ Hok) as Hlen.
  pose proof (ceil_div_bounds (segment_length (getSegment seg_info)) B
                ltac:(lia)) as Hc.
  pose proof (ceil_div_nonneg (segment_length (getSegment seg_info)) B
                ltac:(lia) Hlen) as Hc0.
  assert (Hlim : index_limit <= 2 ^ 32) by apply Z.le_min_l.
  rewrite (segment_events_shape false B seg_info
             (ceil_div (segment_length (getSegment seg_info)) B))
    by (apply gridSize_of_ceil; lia).
  rewrite !to_uint_small by lia.
  eexists. split; [reflexivity |].
  unfold segment_kernel, launch_calls.
  destruct seg_info as [[iseg | iseg] icount];
    cbn [getSegment getIcount segment_domain domain_kernel
         segment_length segment_index segment_ok] in *.
  - destruct Hok as [Hb [He Hd]].
    change (forall_cuda_kernel (getBegin iseg)
              (Index_sub (getEnd iseg) (getBegin iseg)))
      with (guarded (Index_sub (getEnd iseg) (getBegin iseg))
              (fun ii => Call1 (Index_add (getBegin iseg) ii))).
    rewrite guarded_launch by (try assumption; lia).
    apply Permutation_refl'. apply map_ext_in.
    intros ii Hii. apply in_zrange in Hii.
    assert (Hsub : Index_sub (getEnd iseg) (getBegin iseg)
                   = getEnd iseg - getBegin iseg).
    { apply to_Index_type_small. unfold Index_type. lia. }
    rewrite Hsub in *. unfold Index_add.
    rewrite !to_Index_type_small by (unfold Index_type in *; lia).
    reflexivity.
  - change (forall_cuda_kernel_idx (getIndex iseg) (getLength iseg))
      with (guarded (getLength iseg) (fun ii => Call1 (getIndex iseg ii))).
    rewrite guarded_launch by (try assumption; lia).
    apply Permutation_refl.
Qed.

Lemma segment_records counted B (owed : IndexSetSegInfo -> list call) l :
  Forall (fun seg_info =>
            exists calls,
              segment_events counted B seg_info
              = [FT_BEGIN;
                 KernelLaunch
                   (ceil_div (segment_length (getSegment seg_info)) B) B
                   cudaSuccess calls;
                 PeekAtLastError cudaSuccess; FT_END]
              /\ Permutation calls (owed seg_info)) l ->
  Forall2 (fun seg_info calls => Permutation calls (owed seg_info))
    l (launch_records (flat_map (segment_events counted B) l))
  /\ geometry (flat_map (segment_events counted B) l)
     = map (fun seg_info =>
              (ceil_div (segment_length (getSegment seg_info)) B, B)) l
  /\ Permutation (invocations (flat_map (segment_events counted B) l))
       (flat_map owed l).
Proof.
  induction 1 as [| s r [calls [Hev Hperm]] _ [IHr [IHg IHi]]].
  - repeat split; constructor.
  - cbn [flat_map map].
    rewrite launch_records_app, geometry_app, invocations_app, Hev.
    repeat split.
    + cbn. now constructor.
    + cbn. now rewrite IHg.
    + cbn. rewrite app_nil_r. now apply Permutation_app.
Qed.

(** X16.  For every index set whose segments have bounds and lengths that
    are [Index_type] values, the lengths not negative, and every group size
    for which the launch of each segment stays within the machine integers
    ([fits_launch]): a walk without index count that returns has issued one
    launch per segment, in segment order, of the least number of groups
    that covers the segment, and the launch of a segment has invoked the
    body on the index of each of its items once; the counters of the index
    set play no part. *)
Theorem uncounted_walk_visits_each_segment_item_once :
  forall (BLOCK_SIZE : Z) (iset : IndexSet) (h h' : Host),
    fair dev ->
    Forall (fun seg_info => segment_ok (getSegment seg_info)) iset ->
    Forall (fun seg_info =>
              fits_launch (segment_length (getSegment seg_info)) BLOCK_SIZE)
      iset ->
    forall_IndexSet BLOCK_SIZE iset h = (Returned tt, h') ->
    exists tr,
      trace h' = trace h ++ tr
      /\ Forall2 (fun seg_info calls =>
                    Permutation calls
                      (map (fun ii =>
                              Call1 (segment_index (getSegment seg_info) ii))
                         (zrange (segment_length (getSegment seg_info)))))
           iset (launch_records tr)
      /\ geometry tr
         = map (fun seg_info =>
                  (ceil_div (segment_length (getSegment seg_info)) BLOCK_SIZE,
                   BLOCK_SIZE)) iset
      /\ Permutation (invocations tr)
           (flat_map (fun seg_info =>
                        map (fun ii =>
                               Call1 (segment_index (getSegment seg_info) ii))
                          (zrange (segment_length (getSegment seg_info))))
              iset).
Proof.
  intros B iset h h' Hfair Hok Hfits Hrun.
  change (forall_IndexSet B iset) with (walk false B iset) in Hrun.
  apply walk_returned in Hrun. destruct Hrun as [Htr _].
  assert (Hall : Forall (fun seg_info =>
            exists calls,
              segment_events false B seg_info
              = [FT_BEGIN;
                 KernelLaunch
                   (ceil_div (segment_length (getSegment seg_info)) B) B
                   cudaSuccess calls;
                 PeekAtLastError cudaSuccess; FT_END]
              /\ Permutation calls
                   (map (fun ii =>
                           Call1 (segment_index (getSegment seg_info) ii))
                      (zrange (segment_length (getSegment seg_info)))))
            iset).
  { rewrite Forall_forall in *. intros seg_info Hin.
    exact (uncounted_segment_events B seg_info Hfair (Hok _ Hin)
             (Hfits _ Hin)). }
  apply segment_records in Hall. destruct Hall as [Hrec [Hgeo Hinv]].
  eexists. split; [exact Htr |]. repeat split.
  - rewrite launch_records_app. cbn. now rewrite app_nil_r.
  - rewrite geometry_app. cbn. now rewrite app_nil_r.
  - rewrite invocations_app. cbn. now rewrite app_nil_r.
Qed.

(** X17.  A kernel failure reported at the trailing synchronization ends
    the walk, with or without index count, after every segment was
    launched.  When no error is pending, the segments have all been
    dispatched and the synchronization reports [e], the walk ends with the
    fatal error [e]: the events of every segment are in the trace, one
    launch each, followed by the status check and the failed
    synchronization. *)
Theorem walk_synchronization_failure_is_fatal :
  forall (counted : bool) (BLOCK_SIZE : Z) (iset : IndexSet)
         (h h1 : Host) (e : cudaError_t),
    for_segments (segment_dispatch counted (cuda_exec_async BLOCK_SIZE)) iset h
    = (Returned tt, h1) ->
    lastError h = cudaSuccess ->
    syncStatus dev (launches (trace h) + length iset) = e ->
    e <> cudaSuccess ->
    walk counted BLOCK_SIZE iset h
    = (Fatal e,
       mkHost e
         (trace h
          ++ flat_map (segment_events counted BLOCK_SIZE) iset
          ++ [PeekAtLastError cudaSuccess; DeviceSynchronize e]))
    /\ launches (flat_map (segment_events counted BLOCK_SIZE) iset)
       = length iset
    /\ filter is_sync (flat_map (segment_events counted BLOCK_SIZE) iset)
       = [].
Proof.
  intros counted B iset h h1 e Hloop He Hs Hne.
  assert (Hf : is_cudaSuccess e = false).
  { destruct e; [contradiction | reflexivity ..]. }
  rewrite walk_eq. unfold bind. rewrite Hloop.
  apply for_segments_returned in Hloop. destruct Hloop as [Htr [He1 Hall]].
  destruct (segments_one_launch_each counted B iset Hall) as [Hl Hsy].
  rewrite trailing_check_eq, He1, He. cbn [is_cudaSuccess]. cbv zeta.
  rewrite Htr, launches_app, Hl, Hs, Hf.
  repeat split; try assumption. now rewrite <- app_assoc.
Qed.

Lemma for_segments_view p l h :
  for_segments (segment_dispatch false p) l (uncounted_view h)
  = uncounted_result (for_segments (segment_dispatch true p) l h).
Proof.
  revert h. induction l as [| s r IH]; intros h; [reflexivity |].
  cbn [for_segments]. unfold bind.
  rewrite !segment_dispatch_shape.
  rewrite (dispatch_view p (segment_kernel false s) (segment_kernel true s))
    by (intros t; apply kernel_forget).
  unfold uncounted_result at 1.
  destruct (dispatch p (segment_kernel true s) _ h) as [[[] | e |] h1];
    cbn [fst snd]; [apply IH | reflexivity | reflexivity].
Qed.

Lemma trailing_check_view h :
  trailing_check (uncounted_view h) = uncounted_result (trailing_check h).
Proof.
  rewrite !trailing_check_eq. cbn [uncounted_view lastError trace].
  rewrite launches_forget.
  destruct (is_cudaSuccess (lastError h));
    [cbv zeta; destruct (is_cudaSuccess (syncStatus dev _)) |];
    unfold uncounted_result, uncounted_view; cbn [fst snd lastError trace];
    now rewrite map_app.
Qed.

(** X18.  For every index set, group size and host state: the walk with
    index count does what the walk without does and supplies the counts
    besides.  The outcome, the events, the launch geometry and, once the
    counts are forgotten, the invocations of [forall_Icount] over an index
    set are those of [forall] over it, run on the same state with its
    counts forgotten. *)
Theorem counted_walk_is_uncounted_walk_with_counts :
  forall (BLOCK_SIZE : Z) (iset : IndexSet) (h : Host),
    forall_IndexSet BLOCK_SIZE iset (uncounted_view h)
    = uncounted_result (forall_Icount_IndexSet BLOCK_SIZE iset h)
    /\ geometry (trace (snd (forall_IndexSet BLOCK_SIZE iset
                               (uncounted_view h))))
       = geometry (trace (snd (forall_Icount_IndexSet BLOCK_SIZE iset h)))
    /\ invocations (trace (snd (forall_IndexSet BLOCK_SIZE iset
                                  (uncounted_view h))))
       = map forget_count
           (invocations
              (trace (snd (forall_Icount_IndexSet BLOCK_SIZE iset h)))).
Proof.
  intros B iset h.
  assert (Hv : forall_IndexSet B iset (uncounted_view h)
               = uncounted_result (forall_Icount_IndexSet B iset h)).
  { change (forall_IndexSet B iset) with (walk false B iset).
    change (forall_Icount_IndexSet B iset) with (walk true B iset).
    rewrite !walk_eq. unfold bind. rewrite for_segments_view.
    unfold uncounted_result at 1.
    destruct (for_segments (segment_dispatch true _) iset h)
      as [[[] | e |] h1]; cbn [fst snd];
      [apply trailing_check_view | reflexivity | reflexivity]. }
  split; [exact Hv |]. rewrite Hv. unfold uncounted_result, uncounted_view.
  cbn [snd trace]. split; [apply geometry_forget | apply invocations_forget].
Qed.

(** X19.  With the group size 0 a walk, with or without index count, is
    undefined exactly when the index set has a segment: the first segment's
    geometry divides by zero before anything is launched or checked, and
    the host state is left as it was; over no segment nothing is divided,
    and the walk makes its trailing status check. *)
Theorem walk_with_zero_group_size_is_undefined_iff_a_segment :
  forall (counted : bool) (iset : IndexSet) (h : Host),
    (iset <> [] -> walk counted 0 iset h = (Undefined, h))
    /\ (fst (walk counted 0 iset h) = Undefined <-> iset <> []).
Proof.
  intros counted iset h.
  assert (Hne : iset <> [] -> walk counted 0 iset h = (Undefined, h)).
  { destruct iset as [| s r]; [now intros [] |]. intros _.
    rewrite walk_eq. cbn [for_segments]. unfold bind.
    rewrite segment_dispatch_shape.
    now rewrite dispatch_zero_block by reflexivity. }
  split; [exact Hne |]. split.
  - intros Hu ->. rewrite walk_eq in Hu. cbn [for_segments] in Hu.
    unfold bind, ret in Hu. rewrite trailing_check_eq in Hu.
    destruct (is_cudaSuccess (lastError h));
      [cbv zeta in Hu; destruct (is_cudaSuccess (syncStatus dev _)) |];
      discriminate Hu.
  - intros H. now rewrite (Hne H).
Qed.

End ForallCuda.

(** * The theorems at concrete inputs

    [Index_type] is taken 32 bits wide, as RAJA declares it. *)

Ltac evaluate :=
  vm_compute; repeat split; first [reflexivity | discriminate].

Lemma fair_cuda_device : fair cuda_device.
Proof. intros l. apply Permutation_refl. Qed.

(** The two scenarios of the specification, evaluated: the range
    [10, 15) in groups of 4, and the counted walk over segments of lengths
    3 and 5. *)
Example scenario_range_10_15 :
  forall_cuda 32 cuda_device (cuda_exec 4) (IndexRange 10 15) clean_host
  = (Returned tt,
     mkHost cudaSuccess
       [FT_BEGIN;
        KernelLaunch 2 4 cudaSuccess
          [Call1 10; Call1 11; Call1 12; Call1 13; Call1 14];
        PeekAtLastError cudaSuccess;
        DeviceSynchronize cudaSuccess;
        FT_END]).
Proof. vm_compute. reflexivity. Qed.

Example scenario_counted_walk_3_5 :
  launch_records
    (trace (snd (forall_Icount_IndexSet 32 cuda_device 4
                   (mkIndexSet 32 scenario_segments) clean_host)))
  = [[Call2 0 10; Call2 1 11; Call2 2 12];
     [Call2 3 100; Call2 4 99; Call2 5 98; Call2 6 97; Call2 7 96]].
Proof. vm_compute. reflexivity. Qed.

(** The scenario of the specification: [ContiguousRange(10, 15)], group size
    4. *)
Lemma forall_range_visits_each_index_once_witness :
  exists tr,
    trace (snd (forall_cuda 32 cuda_device (cuda_exec 4) (IndexRange 10 15)
                  clean_host))
    = trace clean_host ++ tr
    /\ geometry tr = [(ceil_div (15 - 10) 4, 4)]
    /\ Permutation (invocations tr)
         (map (fun ii => Call1 (10 + ii)) (zrange (15 - 10)))
    /\ (forall i,
          count_occ call_eq_dec (invocations tr) (Call1 i)
          = if (10 <=? i) && (i <? 15) then 1%nat else 0%nat)
    /\ (forall icount i,
          count_occ call_eq_dec (invocations tr) (Call2 icount i) = 0%nat).
Proof.
  apply (forall_range_visits_each_index_once 32 cuda_device (cuda_exec 4)
           10 15 clean_host).
  - exact fair_cuda_device.
  - evaluate.
  - evaluate.
  - evaluate.
  - evaluate.
  - vm_compute. reflexivity.
Defined.

(** C1, as stated, fails for the group size [2^32 + 1]: converted to [dim3]
    it is a block of one thread, the geometry is one group, the device takes
    the launch and the dispatch returns, having invoked the operation for
    index 0 and not for index 1 of the range [0, 2). *)
Lemma range_index_skipped_when_group_size_truncates :
  let r := forall_cuda 32 cuda_device (cuda_exec (2 ^ 32 + 1))
             (IndexRange 0 2) clean_host in
  fst r = Returned tt
  /\ geometry (trace (snd r)) = [(1, 1)]
  /\ invocations (trace (snd r)) = [Call1 0]
  /\ count_occ call_eq_dec (invocations (trace (snd r))) (Call1 1) = 0%nat.
Proof. vm_compute. repeat split. Qed.

(** Why [fits_launch] bounds the number of work items.  With a 32-bit
    [Index_type], the range [0, 2^31 - 1) and groups of 1000, the geometry is
    2147484 groups, a launch within the limits of the device.  The work item
    of block 2147483 and thread 648 has its index [ii] wrapped to [-2^31]; it
    passes the guard [ii < len] and invokes the operation outside the
    range. *)
Remark work_item_index_wraps :
  gridSize_of 2147483647 1000 = Some 2147484
  /\ forall_cuda_kernel 32 0 2147483647 (mkThread 1000 2147483 648)
     = [Call1 (-2147483648)].
Proof. split; reflexivity. Qed.

Lemma range_overrun_when_work_item_index_wraps :
  exists h',
    forall_cuda 32 cuda_device (cuda_exec 1000) (IndexRange 0 2147483647)
      clean_host
    = (Returned tt, h')
    /\ In (Call1 (-2147483648)) (invocations (trace h')).
Proof.
  rewrite forall_cuda_shape. cbn [dispatch domain_kernel domain_length].
  rewrite dispatch_sync_eq.
  change (Index_sub 32 2147483647 0) with 2147483647.
  change (gridSize_of 2147483647 1000) with (Some 2147484).
  cbv beta iota zeta.
  change (launchStatus cuda_device (launches (trace clean_host))
            (to_uint 2147484) (to_uint 1000))
    with cudaSuccess.
  cbn [is_cudaSuccess lastError clean_host syncStatus cuda_device].
  eexists. split; [reflexivity |].
  cbn [trace]. eapply invocations_intro.
  - apply in_or_app. right. apply in_or_app. left.
    apply in_cons, in_eq.
  - change (to_uint 2147484) with 2147484. change (to_uint 1000) with 1000.
    unfold launch_calls. cbn [schedule cuda_device].
    apply in_flat_map. exists (mkThread 1000 2147483 648). split.
    + apply grid_threads_intro; lia.
    + left. reflexivity.
Qed.

(** The scenario of the specification: segments of lengths 3 and 5 receive
    the global indices 0..2 and 3..7. *)
Lemma counted_walk_supplies_global_indices_witness :
  map getIcount (mkIndexSet 32 scenario_segments)
  = prefix_sums 0 (map (segment_length 32) scenario_segments)
  /\ exists tr,
       trace (snd (forall_Icount_IndexSet 32 cuda_device 4
                     (mkIndexSet 32 scenario_segments) clean_host))
       = trace clean_host ++ tr
       /\ Forall2 (fun seg_info calls =>
                     Permutation calls (counted_calls 32 seg_info))
            (mkIndexSet 32 scenario_segments) (launch_records tr)
       /\ Permutation (map global_index (invocations tr))
            (map Some
               (zrange (sum_lengths
                          (map (segment_length 32) scenario_segments)))).
Proof.
  apply (counted_walk_supplies_global_indices 32 cuda_device 4
           scenario_segments clean_host).
  - exact fair_cuda_device.
  - repeat constructor; evaluate.
  - repeat constructor; evaluate.
  - evaluate.
  - vm_compute. reflexivity.
Defined.

(** C2, as stated, fails for the group size [2^32 + 1]: each segment is
    launched as one group of one thread, the walk returns, and the global
    indices supplied are 0 and 3 only. *)
Lemma global_indices_skipped_when_group_size_truncates :
  let r := forall_Icount_IndexSet 32 cuda_device (2 ^ 32 + 1)
             (mkIndexSet 32 scenario_segments) clean_host in
  fst r = Returned tt
  /\ map getIcount (mkIndexSet 32 scenario_segments) = [0; 3]
  /\ map global_index (invocations (trace (snd r))) = [Some 0; Some 3].
Proof. vm_compute. repeat split. Qed.

(** The same walk in groups of 1000 over one range segment of [2^31 - 1]
    items, with a 32-bit [Index_type]: the walk returns, and the work item
    whose index wraps has been supplied the global index [-2^31]. *)
Lemma global_index_overrun_when_work_item_index_wraps :
  exists h',
    forall_Icount_IndexSet 32 cuda_device 1000
      (mkIndexSet 32 [RangeSeg (mkRangeSegment 0 2147483647)]) clean_host
    = (Returned tt, h')
    /\ In (Call2 (-2147483648) (-2147483648)) (invocations (trace h')).
Proof.
  change (forall_Icount_IndexSet 32 cuda_device 1000)
    with (walk 32 cuda_device true 1000).
  rewrite walk_eq.
  change (mkIndexSet 32 [RangeSeg (mkRangeSegment 0 2147483647)])
    with [mkSegInfo (RangeSeg (mkRangeSegment 0 2147483647)) 0].
  cbn [for_segments]. unfold bind, ret.
  rewrite segment_dispatch_shape. cbn [dispatch getSegment].
  rewrite dispatch_async_eq.
  change (segment_length 32 (RangeSeg (mkRangeSegment 0 2147483647)))
    with 2147483647.
  change (gridSize_of 2147483647 1000) with (Some 2147484).
  cbv beta iota zeta.
  change (launchStatus cuda_device (launches (trace clean_host))
            (to_uint 2147484) (to_uint 1000))
    with cudaSuccess.
  cbn [is_cudaSuccess lastError clean_host].
  rewrite trailing_check_eq.
  cbn [is_cudaSuccess lastError syncStatus cuda_device]. cbv zeta.
  cbn [is_cudaSuccess].
  eexists. split; [reflexivity |].
  cbn [trace]. eapply invocations_intro.
  - apply in_or_app. left. apply in_or_app. right. apply in_or_app. left.
    apply in_cons, in_eq.
  - change (to_uint 2147484) with 2147484. change (to_uint 1000) with 1000.
    unfold launch_calls. cbn [schedule cuda_device].
    apply in_flat_map. exists (mkThread 1000 2147483 648). split.
    + apply grid_threads_intro; lia.
    + left. reflexivity.
Qed.

Lemma forall_indirection_visits_each_position_once_witness :
  exists tr,
    trace (snd (forall_cuda 32 cuda_device (cuda_exec 4)
                  (IndirectionArray (fun i => 100 - i) 5) clean_host))
    = trace clean_host ++ tr
    /\ geometry tr = [(ceil_div 5 4, 4)]
    /\ Permutation (invocations tr)
         (map (fun i => Call1 (100 - i)) (zrange 5)).
Proof.
  apply (forall_indirection_visits_each_position_once 32 cuda_device
           (cuda_exec 4) (fun i => 100 - i) 5 clean_host).
  - exact fair_cuda_device.
  - evaluate.
  - evaluate.
  - vm_compute. reflexivity.
Defined.

(** C3, as stated, fails for the group size [2^32 + 1]: the dispatch
    returns having invoked the operation with [idx[0]] only, of an array of
    two positions. *)
Lemma array_position_skipped_when_group_size_truncates :
  let r := forall_cuda 32 cuda_device (cuda_exec (2 ^ 32 + 1))
             (IndirectionArray (fun i => 100 - i) 2) clean_host in
  fst r = Returned tt
  /\ invocations (trace (snd r)) = [Call1 100]
  /\ ~ Permutation (invocations (trace (snd r)))
         (map (fun i => Call1 (100 - i)) (zrange 2)).
Proof.
  vm_compute. repeat split.
  intros Hperm. apply Permutation_length in Hperm. discriminate Hperm.
Qed.

(** The same dispatch in groups of 1000 over an array of [2^31 - 1]
    positions holding [idx[i] = i], with a 32-bit [Index_type]: the dispatch
    returns, and the work item whose index wraps has read the array at
    [-2^31]. *)
Lemma array_overrun_when_work_item_index_wraps :
  exists h',
    forall_cuda 32 cuda_device (cuda_exec 1000)
      (IndirectionArray (fun i => i) 2147483647) clean_host
    = (Returned tt, h')
    /\ In (Call1 (-2147483648)) (invocations (trace h')).
Proof.
  rewrite forall_cuda_shape. cbn [dispatch domain_kernel domain_length].
  rewrite dispatch_sync_eq.
  change (gridSize_of 2147483647 1000) with (Some 2147484).
  cbv beta iota zeta.
  change (launchStatus cuda_device (launches (trace clean_host))
            (to_uint 2147484) (to_uint 1000))
    with cudaSuccess.
  cbn [is_cudaSuccess lastError clean_host syncStatus cuda_device].
  eexists. split; [reflexivity |].
  cbn [trace]. eapply invocations_intro.
  - apply in_or_app. right. apply in_or_app. left.
    apply in_cons, in_eq.
  - change (to_uint 2147484) with 2147484. change (to_uint 1000) with 1000.
    unfold launch_calls. cbn [schedule cuda_device].
    apply in_flat_map. exists (mkThread 1000 2147483 648). split.
    + apply grid_threads_intro; lia.
    + left. reflexivity.
Qed.

Lemma launch_geometry_is_ceiling_witness :
  gridSize_of (domain_length 32 (IndexRange 10 15)) 4
  = Some (ceil_div (domain_length 32 (IndexRange 10 15)) 4)
  /\ (exists tr,
        trace (snd (forall_cuda 32 cuda_device (cuda_exec 4)
                      (IndexRange 10 15) clean_host))
        = trace clean_host ++ tr
        /\ geometry tr
           = [(to_uint (ceil_div (domain_length 32 (IndexRange 10 15)) 4),
               to_uint 4)]).
Proof.
  pose proof (launch_geometry_is_ceiling 32 cuda_device (cuda_exec 4)
                (IndexRange 10 15) 0 clean_host) as H.
  destruct H as [Hg [Hf _]]; [evaluate | evaluate | evaluate |].
  split; [exact Hg | exact Hf].
Defined.

(** C4, as stated, fails for the group size [2^64 - 1]: the [size_t] sum
    [len + B - 1] wraps to 3, the geometry computed for 5 items is 0 groups
    and not [ceil (5 / B) = 1], and the launch is issued with 0 groups. *)
Lemma geometry_wraps_for_largest_group_size :
  gridSize_of 5 (2 ^ 64 - 1) = Some 0
  /\ ceil_div 5 (2 ^ 64 - 1) = 1
  /\ geometry (trace (snd (forall_cuda 32 cuda_device
                             (cuda_exec (2 ^ 64 - 1)) (IndexRange 0 5)
                             clean_host)))
     = [(0, 2 ^ 32 - 1)].
Proof. vm_compute. repeat split. Qed.

(** The walk without index count of lines 662-679 over the segments of
    lengths 3 and 5, in groups of 4, on a device that reports no error. *)
Lemma walk_dispatches_async_then_synchronizes_once_witness :
  forall_IndexSet 32 cuda_device 4 (mkIndexSet 32 scenario_segments)
    clean_host
  = (Returned tt,
     mkHost cudaSuccess
       [FT_BEGIN;
        KernelLaunch 1 4 cudaSuccess [Call1 10; Call1 11; Call1 12];
        PeekAtLastError cudaSuccess; FT_END;
        FT_BEGIN;
        KernelLaunch 2 4 cudaSuccess
          [Call1 100; Call1 99; Call1 98; Call1 97; Call1 96];
        PeekAtLastError cudaSuccess; FT_END;
        PeekAtLastError cudaSuccess;
        DeviceSynchronize cudaSuccess]).
Proof.
  refine (proj1 (proj2 (walk_dispatches_async_then_synchronizes_once 32
                          cuda_device false 4
                          (mkIndexSet 32 scenario_segments) clean_host))
            _ _ _).
  - reflexivity.
  - intros [| [| i]] seg_info Hi.
    + injection Hi as <-. exists 1. split; vm_compute; reflexivity.
    + injection Hi as <-. exists 2. split; vm_compute; reflexivity.
    + destruct i; discriminate Hi.
  - reflexivity.
Defined.

(** The scenario of the specification: the device refuses the launch of
    segment 2 of 3. *)
Lemma failed_segment_aborts_walk_witness :
  walk 32 (failing_device 1) false 4
    (mkIndexSet 32 (scenario_segments ++ [scenario_third_segment]))
    clean_host
  = (Fatal cudaErrorLaunchOutOfResources,
     mkHost cudaErrorLaunchOutOfResources
       [FT_BEGIN;
        KernelLaunch 1 4 cudaSuccess [Call1 10; Call1 11; Call1 12];
        PeekAtLastError cudaSuccess; FT_END;
        FT_BEGIN;
        KernelLaunch 2 4 cudaErrorLaunchOutOfResources [];
        PeekAtLastError cudaErrorLaunchOutOfResources]).
Proof.
  refine (proj1 (failed_segment_aborts_walk 32 (failing_device 1) false 4
                   [mkSegInfo (RangeSeg (mkRangeSegment 10 13)) 0]
                   (mkSegInfo (ListSeg (mkListSegment (fun i => 100 - i) 5))
                      3)
                   [mkSegInfo scenario_third_segment 8]
                   clean_host
                   (mkHost cudaSuccess
                      [FT_BEGIN;
                       KernelLaunch 1 4 cudaSuccess
                         [Call1 10; Call1 11; Call1 12];
                       PeekAtLastError cudaSuccess; FT_END])
                   _ cudaErrorLaunchOutOfResources _ _)).
  - vm_compute. reflexivity.
  - vm_compute. reflexivity.
Defined.

Lemma empty_domain_is_launched_with_zero_groups_witness :
  empty_dispatch cuda_device (cuda_exec 4) clean_host
    (forall_cuda 32 cuda_device (cuda_exec 4) (IndexRange 10 10) clean_host).
Proof.
  refine (proj1 (empty_domain_is_launched_with_zero_groups 32 cuda_device
                   (cuda_exec 4) (IndexRange 10 10) 0 clean_host _ _ _)).
  - exact fair_cuda_device.
  - vm_compute. reflexivity.
  - evaluate.
Defined.

(** C7, as stated, fails on a device with the launch limits of CUDA: the
    dispatch over [ContiguousRange(10, 10)] issues a launch of 0 groups,
    the device refuses it and the dispatch ends with a fatal error. *)
Lemma empty_range_dispatch_fails_on_cuda_device :
  forall_cuda 32 cuda_device (cuda_exec 4) (IndexRange 10 10) clean_host
  = (Fatal cudaErrorInvalidConfiguration,
     mkHost cudaErrorInvalidConfiguration
       [FT_BEGIN;
        KernelLaunch 0 4 cudaErrorInvalidConfiguration [];
        PeekAtLastError cudaErrorInvalidConfiguration]).
Proof. vm_compute. reflexivity. Qed.


Lemma walk_of_no_segment_checks_and_synchronizes_witness :
  walk 32 cuda_device false 4 [] clean_host
  = (Returned tt,
     mkHost cudaSuccess
       (trace clean_host
        ++ [PeekAtLastError cudaSuccess; DeviceSynchronize cudaSuccess])).
Proof.
  apply (proj2 (walk_of_no_segment_checks_and_synchronizes 32 cuda_device
                  false 4 clean_host)); reflexivity.
Defined.

(** * The further properties at concrete inputs *)

(** The counted dispatch of the range [10, 15) in groups of 4, the count
    starting at 3. *)
Lemma forall_Icount_range_supplies_count_and_index_witness :
  exists tr,
    trace (snd (forall_Icount_cuda 32 cuda_device (cuda_exec 4)
                  (IndexRange 10 15) 3 clean_host))
    = trace clean_host ++ tr
    /\ geometry tr = [(ceil_div (15 - 10) 4, 4)]
    /\ Permutation (invocations tr)
         (map (fun ii => Call2 (3 + ii) (10 + ii)) (zrange (15 - 10))).
Proof.
  apply (forall_Icount_range_supplies_count_and_index 32 cuda_device
           (cuda_exec 4) 10 15 3 (IndexRange 10 15) clean_host
           (snd (forall_Icount_cuda 32 cuda_device (cuda_exec 4)
                   (IndexRange 10 15) 3 clean_host))).
  - exact fair_cuda_device.
  - evaluate.
  - evaluate.
  - evaluate.
  - evaluate.
  - evaluate.
  - evaluate.
  - left. reflexivity.
  - vm_compute. reflexivity.
Defined.

Lemma forall_Icount_array_supplies_count_and_index_witness :
  exists tr,
    trace (snd (forall_Icount_cuda 32 cuda_device (cuda_exec_async 4)
                  (ListSegmentObject (mkListSegment (fun i => 100 - i) 5))
                  3 clean_host))
    = trace clean_host ++ tr
    /\ geometry tr = [(ceil_div 5 4, 4)]
    /\ Permutation (invocations tr)
         (map (fun ii => Call2 (3 + ii) (100 - ii)) (zrange 5)).
Proof.
  apply (forall_Icount_array_supplies_count_and_index 32 cuda_device
           (cuda_exec_async 4) (fun i => 100 - i) 5 3
           (ListSegmentObject (mkListSegment (fun i => 100 - i) 5))
           clean_host
           (snd (forall_Icount_cuda 32 cuda_device (cuda_exec_async 4)
                   (ListSegmentObject (mkListSegment (fun i => 100 - i) 5))
                   3 clean_host))).
  - exact fair_cuda_device.
  - evaluate.
  - evaluate.
  - evaluate.
  - evaluate.
  - right. reflexivity.
  - vm_compute. reflexivity.
Defined.

Lemma forall_range_segment_visits_each_index_once_witness :
  exists tr,
    trace (snd (forall_cuda 32 cuda_device (cuda_exec 4)
                  (RangeSegmentObject (mkRangeSegment 10 15)) clean_host))
    = trace clean_host ++ tr
    /\ geometry tr = [(ceil_div (15 - 10) 4, 4)]
    /\ Permutation (invocations tr)
         (map (fun ii => Call1 (10 + ii)) (zrange (15 - 10))).
Proof.
  apply (forall_range_segment_visits_each_index_once 32 cuda_device
           (cuda_exec 4) (mkRangeSegment 10 15) clean_host
           (snd (forall_cuda 32 cuda_device (cuda_exec 4)
                   (RangeSegmentObject (mkRangeSegment 10 15)) clean_host))).
  - exact fair_cuda_device.
  - evaluate.
  - evaluate.
  - evaluate.
  - evaluate.
  - vm_compute. reflexivity.
Defined.

Lemma forall_list_segment_visits_each_position_once_witness :
  exists tr,
    trace (snd (forall_cuda 32 cuda_device (cuda_exec 4)
                  (ListSegmentObject (mkListSegment (fun i => 100 - i) 5))
                  clean_host))
    = trace clean_host ++ tr
    /\ geometry tr = [(ceil_div 5 4, 4)]
    /\ Permutation (invocations tr)
         (map (fun ii => Call1 (100 - ii)) (zrange 5)).
Proof.
  apply (forall_list_segment_visits_each_position_once 32 cuda_device
           (cuda_exec 4) (mkListSegment (fun i => 100 - i) 5) clean_host
           (snd (forall_cuda 32 cuda_device (cuda_exec 4)
                   (ListSegmentObject (mkListSegment (fun i => 100 - i) 5))
                   clean_host))).
  - exact fair_cuda_device.
  - evaluate.
  - evaluate.
  - vm_compute. reflexivity.
Defined.

(** The device refuses the launch of the range [10, 15). *)
Lemma refused_launch_is_fatal_witness :
  fst (forall_cuda 32 (failing_device 0) (cuda_exec 4) (IndexRange 10 15)
         clean_host)
  = Fatal cudaErrorLaunchOutOfResources
  /\ lastError (snd (forall_cuda 32 (failing_device 0) (cuda_exec 4)
                       (IndexRange 10 15) clean_host))
     = cudaErrorLaunchOutOfResources
  /\ device_events
       (trace (snd (forall_cuda 32 (failing_device 0) (cuda_exec 4)
                      (IndexRange 10 15) clean_host)))
     = device_events (trace clean_host)
       ++ [KernelLaunch (to_uint 2) (to_uint 4)
             cudaErrorLaunchOutOfResources [];
           PeekAtLastError cudaErrorLaunchOutOfResources]
  /\ invocations
       (trace (snd (forall_cuda 32 (failing_device 0) (cuda_exec 4)
                      (IndexRange 10 15) clean_host)))
     = invocations (trace clean_host).
Proof.
  apply (refused_launch_is_fatal 32 (failing_device 0) (cuda_exec 4)
           (IndexRange 10 15) 0 clean_host 2 cudaErrorLaunchOutOfResources
           (forall_cuda 32 (failing_device 0) (cuda_exec 4)
              (IndexRange 10 15) clean_host)).
  - vm_compute. reflexivity.
  - vm_compute. reflexivity.
  - discriminate.
  - left. reflexivity.
Defined.

(** The kernel over the range [10, 15) fails on the device. *)
Lemma execution_error_is_seen_by_the_synchronous_template_witness :
  fst (forall_cuda 32 faulting_device (cuda_exec_async 4) (IndexRange 10 15)
         clean_host)
  = Returned tt
  /\ fst (forall_cuda 32 faulting_device (cuda_exec 4) (IndexRange 10 15)
            clean_host)
     = Fatal cudaErrorLaunchFailure.
Proof.
  pose proof (execution_error_is_seen_by_the_synchronous_template 32
                faulting_device 4 (IndexRange 10 15) clean_host 2
                cudaErrorLaunchFailure) as H.
  destruct H as [Ha [Hs _]];
    [vm_compute; reflexivity | vm_compute; reflexivity | reflexivity
    | reflexivity | discriminate |].
  split; [rewrite Ha; reflexivity | exact Hs].
Defined.

Lemma returning_dispatch_brackets_one_launch_witness :
  lastError clean_host = cudaSuccess
  /\ lastError (snd (forall_cuda 32 cuda_device (cuda_exec 4)
                       (IndexRange 10 15) clean_host))
     = cudaSuccess
  /\ launches (trace (snd (forall_cuda 32 cuda_device (cuda_exec 4)
                             (IndexRange 10 15) clean_host)))
     = S (launches (trace clean_host))
  /\ exists g calls,
       trace (snd (forall_cuda 32 cuda_device (cuda_exec 4)
                     (IndexRange 10 15) clean_host))
       = trace clean_host
         ++ [FT_BEGIN; KernelLaunch g (to_uint 4) cudaSuccess calls;
             PeekAtLastError cudaSuccess]
         ++ [DeviceSynchronize cudaSuccess]
         ++ [FT_END].
Proof.
  apply (returning_dispatch_brackets_one_launch 32 cuda_device (cuda_exec 4)
           (IndexRange 10 15) 0 clean_host
           (snd (forall_cuda 32 cuda_device (cuda_exec 4)
                   (IndexRange 10 15) clean_host))).
  left. vm_compute. reflexivity.
Defined.

(** Five items in groups of 4: two groups, three idle work items. *)
Lemma geometry_is_the_least_cover_witness :
  exists g,
    gridSize_of 5 4 = Some g
    /\ 5 <= g * 4 < 5 + 4
    /\ (forall g', 5 <= g' * 4 -> g <= g')
    /\ (5 mod 4 = 0 -> g = 5 / 4)
    /\ (g = 0 <-> 5 = 0).
Proof.
  apply (geometry_is_the_least_cover 5 4).
  - evaluate.
  - evaluate.
  - vm_compute. reflexivity.
Defined.

Lemma invocations_never_exceed_work_items_witness :
  (exists tr,
     trace (snd (forall_cuda 32 cuda_device (cuda_exec 4) (IndexRange 10 15)
                   clean_host))
     = trace clean_host ++ tr
     /\ Z.of_nat (length (invocations tr)) <= work_items tr)
  /\ (exists tr,
        trace (snd (forall_Icount_cuda 32 cuda_device (cuda_exec 4)
                      (IndexRange 10 15) 3 clean_host))
        = trace clean_host ++ tr
        /\ Z.of_nat (length (invocations tr)) <= work_items tr).
Proof.
  apply (invocations_never_exceed_work_items 32 cuda_device (cuda_exec 4)
           (IndexRange 10 15) 3 clean_host).
  exact fair_cuda_device.
Defined.

(** The range from 15 to 13, of length -2, in groups of 4. *)
Lemma short_negative_length_launches_zero_groups_witness :
  gridSize_of (domain_length 32 (IndexRange 15 13)) 4 = Some 0
  /\ empty_dispatch cuda_device (cuda_exec 4) clean_host
       (forall_cuda 32 cuda_device (cuda_exec 4) (IndexRange 15 13)
          clean_host)
  /\ empty_dispatch cuda_device (cuda_exec 4) clean_host
       (forall_Icount_cuda 32 cuda_device (cuda_exec 4) (IndexRange 15 13) 0
          clean_host).
Proof.
  apply (short_negative_length_launches_zero_groups 32 cuda_device
           (cuda_exec 4) (IndexRange 15 13) 0 clean_host).
  - exact fair_cuda_device.
  - evaluate.
  - evaluate.
Defined.

(** The range [10, 18) against the ranges [10, 13) and [13, 18). *)
Lemma split_range_visits_the_same_indices_witness :
  exists tr2 tr',
    trace (snd ((forall_cuda 32 cuda_device (cuda_exec 4) (IndexRange 10 13) ;;
                 forall_cuda 32 cuda_device (cuda_exec 4) (IndexRange 13 18))
                  clean_host))
    = trace clean_host ++ tr2
    /\ trace (snd (forall_cuda 32 cuda_device (cuda_exec 4)
                     (IndexRange 10 18) clean_host))
       = trace clean_host ++ tr'
    /\ Permutation (invocations tr2) (invocations tr')
    /\ length (geometry tr2) = 2%nat
    /\ length (geometry tr') = 1%nat.
Proof.
  apply (split_range_visits_the_same_indices 32 cuda_device (cuda_exec 4)
           10 13 18 clean_host
           (snd ((forall_cuda 32 cuda_device (cuda_exec 4)
                    (IndexRange 10 13) ;;
                  forall_cuda 32 cuda_device (cuda_exec 4)
                    (IndexRange 13 18)) clean_host))
           (snd (forall_cuda 32 cuda_device (cuda_exec 4)
                   (IndexRange 10 18) clean_host))).
  - exact fair_cuda_device.
  - evaluate.
  - evaluate.
  - evaluate.
  - vm_compute. reflexivity.
  - evaluate.
  - evaluate.
  - evaluate.
  - vm_compute. reflexivity.
  - vm_compute. reflexivity.
Defined.

(** A device error is pending when the range [10, 15) is dispatched. *)
Lemma pending_error_fails_the_dispatch_after_its_launch_witness :
  fst (forall_cuda 32 cuda_device (cuda_exec 4) (IndexRange 10 15)
         (mkHost cudaErrorLaunchFailure []))
  = Fatal cudaErrorLaunchFailure
  /\ lastError (snd (forall_cuda 32 cuda_device (cuda_exec 4)
                       (IndexRange 10 15)
                       (mkHost cudaErrorLaunchFailure [])))
     = cudaErrorLaunchFailure
  /\ exists calls,
       device_events
         (trace (snd (forall_cuda 32 cuda_device (cuda_exec 4)
                        (IndexRange 10 15)
                        (mkHost cudaErrorLaunchFailure []))))
       = device_events (trace (mkHost cudaErrorLaunchFailure []))
         ++ [KernelLaunch (to_uint 2) (to_uint 4) cudaSuccess calls;
             PeekAtLastError cudaErrorLaunchFailure].
Proof.
  apply (pending_error_fails_the_dispatch_after_its_launch 32 cuda_device
           (cuda_exec 4) (IndexRange 10 15) 0
           (mkHost cudaErrorLaunchFailure []) 2 cudaErrorLaunchFailure
           (forall_cuda 32 cuda_device (cuda_exec 4) (IndexRange 10 15)
              (mkHost cudaErrorLaunchFailure []))).
  - vm_compute. reflexivity.
  - vm_compute. reflexivity.
  - reflexivity.
  - discriminate.
  - left. reflexivity.
Defined.

(** The walk without index count over the segments of lengths 3 and 5. *)
Lemma uncounted_walk_visits_each_segment_item_once_witness :
  exists tr,
    trace (snd (forall_IndexSet 32 cuda_device 4
                  (mkIndexSet 32 scenario_segments) clean_host))
    = trace clean_host ++ tr
    /\ Forall2 (fun seg_info calls =>
                  Permutation calls
                    (map (fun ii =>
                            Call1 (segment_index (getSegment seg_info) ii))
                       (zrange (segment_length 32 (getSegment seg_info)))))
         (mkIndexSet 32 scenario_segments) (launch_records tr)
    /\ geometry tr
       = map (fun seg_info =>
                (ceil_div (segment_length 32 (getSegment seg_info)) 4, 4))
           (mkIndexSet 32 scenario_segments)
    /\ Permutation (invocations tr)
         (flat_map (fun seg_info =>
                      map (fun ii =>
                             Call1 (segment_index (getSegment seg_info) ii))
                        (zrange (segment_length 32 (getSegment seg_info))))
            (mkIndexSet 32 scenario_segments)).
Proof.
  apply (uncounted_walk_visits_each_segment_item_once 32 cuda_device 4
           (mkIndexSet 32 scenario_segments) clean_host
           (snd (forall_IndexSet 32 cuda_device 4
                   (mkIndexSet 32 scenario_segments) clean_host))).
  - exact fair_cuda_device.
  - repeat constructor; evaluate.
  - repeat constructor; evaluate.
  - vm_compute. reflexivity.
Defined.

(** The kernel of a segment fails on the device: the walk learns of it at
    its synchronization, after both launches. *)
Lemma walk_synchronization_failure_is_fatal_witness :
  walk 32 faulting_device false 4 (mkIndexSet 32 scenario_segments) clean_host
  = (Fatal cudaErrorLaunchFailure,
     mkHost cudaErrorLaunchFailure
       [FT_BEGIN;
        KernelLaunch 1 4 cudaSuccess [Call1 10; Call1 11; Call1 12];
        PeekAtLastError cudaSuccess; FT_END;
        FT_BEGIN;
        KernelLaunch 2 4 cudaSuccess
          [Call1 100; Call1 99; Call1 98; Call1 97; Call1 96];
        PeekAtLastError cudaSuccess; FT_END;
        PeekAtLastError cudaSuccess;
        DeviceSynchronize cudaErrorLaunchFailure]).
Proof.
  refine (proj1 (walk_synchronization_failure_is_fatal 32 faulting_device
                   false 4 (mkIndexSet 32 scenario_segments) clean_host
                   (snd (for_segments
                           (segment_dispatch 32 faulting_device false
                              (cuda_exec_async 4))
                           (mkIndexSet 32 scenario_segments) clean_host))
                   cudaErrorLaunchFailure _ _ _ _)).
  - vm_compute. reflexivity.
  - reflexivity.
  - reflexivity.
  - discriminate.
Defined.

Lemma walk_with_zero_group_size_is_undefined_iff_a_segment_witness :
  walk 32 cuda_device true 0 (mkIndexSet 32 scenario_segments) clean_host
  = (Undefined, clean_host).
Proof.
  refine (proj1 (walk_with_zero_group_size_is_undefined_iff_a_segment 32
                   cuda_device true (mkIndexSet 32 scenario_segments)
                   clean_host) _).
  vm_compute. discriminate.
Defined.
